(** * Deploy execution and result interpretation of action-firebase-deploy

    A shallow embedding of [src/deploy.ts] (and of the status check of
    [run] in the action's entry point) together with the properties of the
    deploy executor, the result parser and the channel-result interpreter.

    Conventions of the embedding.
    - A JavaScript string is a [string]: the bytes of its UTF-8 encoding
      (a lone surrogate, which only a JSON escape can produce, is kept in
      its three-byte generalised form).  Process output is taken to be
      well-formed UTF-8, so [Buffer.toString("utf-8")] is the identity.
    - [undefined] for an optional field is [None].
    - An asynchronous function is a function of the [World] it runs in,
      returning a [Result] (a value, or the error thrown) and the new world.
    - The external tool, the ambient process environment and the engine's
      [Date] are parameters of the development. *)

From Stdlib Require Import String Ascii List NArith ZArith Lia Bool.
From Stdlib Require Import DecimalString.
From stdpp Require Import base strings gmap.
From Equations Require Import Equations.
Import ListNotations.

Local Open Scope string_scope.
Local Open Scope list_scope.
Local Open Scope N_scope.

Set Warnings "-register-all".

(** ** The JavaScript built-ins the program uses *)

Module JS.

Definition code (c : ascii) : N := N_of_ascii c.

Definition bytes (s : string) : list ascii := list_ascii_of_string s.
Definition text (l : list ascii) : string := string_of_list_ascii l.

(** Truthiness of a string, and of an optional string ([undefined] and the
    empty string are the falsy ones). *)
Definition truthy (s : string) : bool :=
  match s with EmptyString => false | String _ _ => true end.

Definition truthy_opt (o : option string) : bool :=
  match o with Some s => truthy s | None => false end.

(** [a || b] on an optional string with a string default. *)
Definition or_else (o : option string) (d : string) : string :=
  match o with
  | Some s => if truthy s then s else d
  | None => d
  end.

(** [xs.join(sep)]. *)
Definition join (sep : string) (xs : list string) : string :=
  String.concat sep xs.

(** *** [String.prototype.trim]

    The characters removed are ECMAScript's WhiteSpace and LineTerminator:
    U+0009..U+000D, U+0020, U+00A0, U+1680, U+2000..U+200A, U+2028, U+2029,
    U+202F, U+205F, U+3000 and U+FEFF, here by their UTF-8 encodings. *)
Definition white1 (b : ascii) : bool :=
  let n := code b in ((9 <=? n) && (n <=? 13)) || (n =? 32).

Definition white2 (b1 b2 : ascii) : bool :=
  (code b1 =? 0xC2) && (code b2 =? 0xA0).

Definition white3 (b1 b2 b3 : ascii) : bool :=
  let n1 := code b1 in
  let n2 := code b2 in
  let n3 := code b3 in
  ((n1 =? 0xE1) && (n2 =? 0x9A) && (n3 =? 0x80))
  || ((n1 =? 0xE2) && (n2 =? 0x80)
      && (((0x80 <=? n3) && (n3 <=? 0x8A))
          || (n3 =? 0xA8) || (n3 =? 0xA9) || (n3 =? 0xAF)))
  || ((n1 =? 0xE2) && (n2 =? 0x81) && (n3 =? 0x9F))
  || ((n1 =? 0xE3) && (n2 =? 0x80) && (n3 =? 0x80))
  || ((n1 =? 0xEF) && (n2 =? 0xBB) && (n3 =? 0xBF)).

(** Drops white characters from the front of a byte sequence; [w2] and [w3]
    recognise the two- and three-byte ones in the order the bytes are met. *)
Fixpoint drop_white (w2 : ascii -> ascii -> bool)
    (w3 : ascii -> ascii -> ascii -> bool) (l : list ascii) : list ascii :=
  match l with
  | [] => []
  | b1 :: l1 =>
      if white1 b1 then drop_white w2 w3 l1
      else
        match l1 with
        | [] => l
        | b2 :: l2 =>
            if w2 b1 b2 then drop_white w2 w3 l2
            else
              match l2 with
              | [] => l
              | b3 :: l3 => if w3 b1 b2 b3 then drop_white w2 w3 l3 else l
              end
        end
  end.

Definition trimStart_bytes (l : list ascii) : list ascii :=
  drop_white white2 white3 l.

(** From the end the bytes of a character are met last byte first. *)
Definition trimEnd_bytes (l : list ascii) : list ascii :=
  List.rev
    (drop_white (fun b2 b1 => white2 b1 b2)
                (fun b3 b2 b1 => white3 b1 b2 b3) (List.rev l)).

Definition trim (s : string) : string :=
  text (trimEnd_bytes (trimStart_bytes (bytes s))).

(** *** Ordinary objects

    An object is the list of its own properties in creation order, keys
    unique.  Enumeration ([Object.values], [Object.keys]) lists the keys that
    are array indices first, in ascending numeric order, then the other
    keys in creation order. *)
Definition object (V : Type) : Type := list (string * V).

Definition digit_val (c : ascii) : option N :=
  let n := code c in
  if (48 <=? n) && (n <=? 57) then Some (n - 48) else None.

Fixpoint decimal_value (acc : N) (l : list ascii) : option N :=
  match l with
  | [] => Some acc
  | c :: l' =>
      match digit_val c with
      | Some d => decimal_value (10 * acc + d) l'
      | None => None
      end
  end.

(** A key is an array index when it is the canonical decimal form of an
    integer below 2^32 - 1. *)
Definition array_index (k : string) : option N :=
  match bytes k with
  | [] => None
  | c :: l =>
      if (code c =? 48) && negb (forallb (fun _ => false) l) then None
      else
        match decimal_value 0 (c :: l) with
        | Some n => if n <? 4294967295 then Some n else None
        | None => None
        end
  end.

Fixpoint insert_index {V} (i : N) (p : string * V)
    (l : list (N * (string * V))) : list (N * (string * V)) :=
  match l with
  | [] => [(i, p)]
  | (j, q) :: l' =>
      if i <? j then (i, p) :: l else (j, q) :: insert_index i p l'
  end.

Definition indexed_props {V} (o : object V) : list (N * (string * V)) :=
  fold_left
    (fun acc p =>
       match array_index (fst p) with
       | Some i => insert_index i p acc
       | None => acc
       end) o [].

Definition is_index {V} (p : string * V) : bool :=
  match array_index (fst p) with Some _ => true | None => false end.

Definition named_props {V} (o : object V) : list (string * V) :=
  List.filter (fun p => negb (is_index p)) o.

Definition own_properties {V} (o : object V) : list (string * V) :=
  map snd (indexed_props o) ++ named_props o.

Definition Object_keys {V} (o : object V) : list string :=
  map fst (own_properties o).

Definition Object_values {V} (o : object V) : list V :=
  map snd (own_properties o).

Fixpoint obj_get {V} (k : string) (o : object V) : option V :=
  match o with
  | [] => None
  | (k', v) :: o' => if String.eqb k k' then Some v else obj_get k o'
  end.

(** Defining a property: an existing key keeps its place and takes the new
    value, a new key goes last. *)
Fixpoint obj_define {V} (k : string) (v : V) (o : object V) : object V :=
  match o with
  | [] => [(k, v)]
  | (k', v') :: o' =>
      if String.eqb k k' then (k, v) :: o' else (k', v') :: obj_define k v o'
  end.

(** *** JSON values and [JSON.parse]

    A number is kept as its literal: the double it denotes is not
    computed. *)
Inductive json : Type :=
| JNull
| JBool (b : bool)
| JNumber (literal : string)
| JString (s : string)
| JArray (elements : list json)
| JObject (properties : list (string * json)).

Inductive token : Type :=
| TLBrace | TRBrace | TLBracket | TRBracket | TColon | TComma
| TString (s : string)
| TNumber (literal : string)
| TTrue | TFalse | TNull.

(** Where the scanner stands inside a number. *)
Inductive numphase : Type :=
| NMinus      (* after the sign: a digit must follow *)
| NZero       (* after a leading zero *)
| NInt        (* in the digits of the integer part *)
| NDot        (* after the point: a digit must follow *)
| NFrac       (* in the digits of the fraction *)
| NExp        (* after e or E: a sign or a digit must follow *)
| NExpSign    (* after the sign of the exponent: a digit must follow *)
| NExpDigits. (* in the digits of the exponent *)

Inductive lstate : Type :=
| LDefault
| LLit (rest : list ascii) (t : token)
| LNum (ph : numphase) (racc : list ascii)
| LStr (racc : list ascii)
| LEsc (racc : list ascii)
| LUni (racc : list ascii) (seen : nat) (value : N).

Definition is_digit (c : ascii) : bool :=
  let n := code c in (48 <=? n) && (n <=? 57).

Definition is_json_white (c : ascii) : bool :=
  let n := code c in (n =? 32) || (n =? 9) || (n =? 10) || (n =? 13).

Definition hex_val (c : ascii) : option N :=
  let n := code c in
  if (48 <=? n) && (n <=? 57) then Some (n - 48)
  else if (97 <=? n) && (n <=? 102) then Some (n - 87)
  else if (65 <=? n) && (n <=? 70) then Some (n - 55)
  else None.

Definition byte (n : N) : ascii := ascii_of_N n.

Definition utf8 (cp : N) : list ascii :=
  if cp <? 0x80 then [byte cp]
  else if cp <? 0x800 then [byte (0xC0 + cp / 64); byte (0x80 + cp mod 64)]
  else if cp <? 0x10000 then
    [byte (0xE0 + cp / 4096); byte (0x80 + (cp / 64) mod 64);
     byte (0x80 + cp mod 64)]
  else
    [byte (0xF0 + cp / 262144); byte (0x80 + (cp / 4096) mod 64);
     byte (0x80 + (cp / 64) mod 64); byte (0x80 + cp mod 64)].

(** Appends the code unit of a [\uXXXX] escape to the (reversed) bytes of a
    string; a low surrogate right after a high one makes one character. *)
Definition push_unit (u : N) (racc : list ascii) : list ascii :=
  match racc with
  | b3 :: b2 :: b1 :: r =>
      if (0xDC00 <=? u) && (u <=? 0xDFFF) && (code b1 =? 0xED)
         && (0xA0 <=? code b2) && (code b2 <=? 0xAF)
         && (0x80 <=? code b3) && (code b3 <=? 0xBF)
      then
        let hi := 0xD000 + (code b2 - 0x80) * 64 + (code b3 - 0x80) in
        List.rev (utf8 (0x10000 + (hi - 0xD800) * 1024 + (u - 0xDC00))) ++ r
      else List.rev (utf8 u) ++ racc
  | _ => List.rev (utf8 u) ++ racc
  end.

Definition num_token (racc : list ascii) : token :=
  TNumber (text (List.rev racc)).

Definition num_accepting (ph : numphase) : bool :=
  match ph with
  | NZero | NInt | NFrac | NExpDigits => true
  | _ => false
  end.

(** One character met between tokens. *)
Definition lex_default (c : ascii) : option (lstate * list token) :=
  let n := code c in
  if is_json_white c then Some (LDefault, [])
  else if n =? 123 then Some (LDefault, [TLBrace])
  else if n =? 125 then Some (LDefault, [TRBrace])
  else if n =? 91 then Some (LDefault, [TLBracket])
  else if n =? 93 then Some (LDefault, [TRBracket])
  else if n =? 58 then Some (LDefault, [TColon])
  else if n =? 44 then Some (LDefault, [TComma])
  else if n =? 34 then Some (LStr [], [])
  else if n =? 45 then Some (LNum NMinus [c], [])
  else if n =? 48 then Some (LNum NZero [c], [])
  else if is_digit c then Some (LNum NInt [c], [])
  else if n =? 116 then Some (LLit (bytes "rue") TTrue, [])
  else if n =? 102 then Some (LLit (bytes "alse") TFalse, [])
  else if n =? 110 then Some (LLit (bytes "ull") TNull, [])
  else None.

(** The next phase of a number on one more character of it, if it is one. *)
Definition num_step (ph : numphase) (c : ascii) : option numphase :=
  let n := code c in
  let is_e := (n =? 101) || (n =? 69) in
  match ph with
  | NMinus => if n =? 48 then Some NZero else if is_digit c then Some NInt else None
  | NZero => if n =? 46 then Some NDot else if is_e then Some NExp else None
  | NInt =>
      if is_digit c then Some NInt
      else if n =? 46 then Some NDot else if is_e then Some NExp else None
  | NDot => if is_digit c then Some NFrac else None
  | NFrac => if is_digit c then Some NFrac else if is_e then Some NExp else None
  | NExp =>
      if (n =? 43) || (n =? 45) then Some NExpSign
      else if is_digit c then Some NExpDigits else None
  | NExpSign => if is_digit c then Some NExpDigits else None
  | NExpDigits => if is_digit c then Some NExpDigits else None
  end.

Definition lex_step (st : lstate) (c : ascii) : option (lstate * list token) :=
  let n := code c in
  match st with
  | LDefault => lex_default c
  | LLit rest t =>
      match rest with
      | [] => None
      | c' :: rest' =>
          if Ascii.eqb c c' then
            match rest' with
            | [] => Some (LDefault, [t])
            | _ :: _ => Some (LLit rest' t, [])
            end
          else None
      end
  | LNum ph racc =>
      match num_step ph c with
      | Some ph' => Some (LNum ph' (c :: racc), [])
      | None =>
          if num_accepting ph then
            match lex_default c with
            | Some (st', out) => Some (st', num_token racc :: out)
            | None => None
            end
          else None
      end
  | LStr racc =>
      if n =? 34 then Some (LDefault, [TString (text (List.rev racc))])
      else if n =? 92 then Some (LEsc racc, [])
      else if n <? 32 then None
      else Some (LStr (c :: racc), [])
  | LEsc racc =>
      if (n =? 34) || (n =? 92) || (n =? 47) then Some (LStr (c :: racc), [])
      else if n =? 98 then Some (LStr (byte 8 :: racc), [])
      else if n =? 102 then Some (LStr (byte 12 :: racc), [])
      else if n =? 110 then Some (LStr (byte 10 :: racc), [])
      else if n =? 114 then Some (LStr (byte 13 :: racc), [])
      else if n =? 116 then Some (LStr (byte 9 :: racc), [])
      else if n =? 117 then Some (LUni racc 0 0, [])
      else None
  | LUni racc seen v =>
      match hex_val c with
      | Some h =>
          match seen with
          | 3%nat => Some (LStr (push_unit (16 * v + h) racc), [])
          | _ => Some (LUni racc (S seen) (16 * v + h), [])
          end
      | None => None
      end
  end.

(** At the end of the text. *)
Definition lex_end (st : lstate) : option (list token) :=
  match st with
  | LDefault => Some []
  | LNum ph racc => if num_accepting ph then Some [num_token racc] else None
  | _ => None
  end.

(** Scanning a stretch of text: the state reached and the tokens completed
    on the way. *)
Fixpoint lex_scan (st : lstate) (l : list ascii)
    : option (lstate * list token) :=
  match l with
  | [] => Some (st, [])
  | c :: l' =>
      match lex_step st c with
      | Some (st', out) =>
          match lex_scan st' l' with
          | Some (st'', out') => Some (st'', out ++ out')
          | None => None
          end
      | None => None
      end
  end.

Definition lex (l : list ascii) : option (list token) :=
  match lex_scan LDefault l with
  | Some (st, out) =>
      match lex_end st with
      | Some last => Some (out ++ last)
      | None => None
      end
  | None => None
  end.

(** The states the scanner can be in: inside a literal, what is still
    expected is made of lower-case letters. *)
Definition letter (c : ascii) : bool :=
  let n := code c in (97 <=? n) && (n <=? 122).

Definition settled (st : lstate) : Prop :=
  match st with
  | LLit rest _ => forallb letter rest = true
  | _ => True
  end.

(** The grammar, as a stack automaton over the tokens. *)
Inductive frame : Type :=
| FArray (rdone : list json)
| FObject (done : list (string * json))
| FMember (done : list (string * json)) (key : string).

Inductive pstate : Type :=
| PValue       (* a value must follow *)
| PArrayStart  (* after an opening bracket: a value or the closing one *)
| PObjectStart (* after an opening brace: a key or the closing one *)
| PKey         (* after a comma in an object: a key *)
| PColon       (* after a key *)
| PDone (v : json). (* a value is complete *)

Definition begin_value (stack : list frame) (t : token)
    : option (pstate * list frame) :=
  match t with
  | TString s => Some (PDone (JString s), stack)
  | TNumber n => Some (PDone (JNumber n), stack)
  | TTrue => Some (PDone (JBool true), stack)
  | TFalse => Some (PDone (JBool false), stack)
  | TNull => Some (PDone JNull, stack)
  | TLBracket => Some (PArrayStart, FArray [] :: stack)
  | TLBrace => Some (PObjectStart, FObject [] :: stack)
  | _ => None
  end.

Definition begin_key (stack : list frame) (t : token)
    : option (pstate * list frame) :=
  match t, stack with
  | TString k, FObject done :: stack' => Some (PColon, FMember done k :: stack')
  | _, _ => None
  end.

Definition parse_step (st : pstate) (stack : list frame) (t : token)
    : option (pstate * list frame) :=
  match st with
  | PValue => begin_value stack t
  | PArrayStart =>
      match t, stack with
      | TRBracket, FArray rdone :: stack' =>
          Some (PDone (JArray (List.rev rdone)), stack')
      | _, _ => begin_value stack t
      end
  | PObjectStart =>
      match t, stack with
      | TRBrace, FObject done :: stack' => Some (PDone (JObject done), stack')
      | _, _ => begin_key stack t
      end
  | PKey => begin_key stack t
  | PColon => match t with TColon => Some (PValue, stack) | _ => None end
  | PDone v =>
      match stack, t with
      | FArray rdone :: stack', TComma =>
          Some (PValue, FArray (v :: rdone) :: stack')
      | FArray rdone :: stack', TRBracket =>
          Some (PDone (JArray (List.rev (v :: rdone))), stack')
      | FMember done k :: stack', TComma =>
          Some (PKey, FObject (obj_define k v done) :: stack')
      | FMember done k :: stack', TRBrace =>
          Some (PDone (JObject (obj_define k v done)), stack')
      | _, _ => None
      end
  end.

Fixpoint parse_run (st : pstate) (stack : list frame) (ts : list token)
    : option json :=
  match ts with
  | [] => match st, stack with PDone v, [] => Some v | _, _ => None end
  | t :: ts' =>
      match parse_step st stack t with
      | Some (st', stack') => parse_run st' stack' ts'
      | None => None
      end
  end.

(** [JSON.parse(s)]: the value, or [None] where it throws a SyntaxError. *)
Definition JSON_parse (s : string) : option json :=
  match lex (bytes s) with
  | Some ts => parse_run PValue [] ts
  | None => None
  end.

End JS.

(** ** Errors, results and the world of a run *)

(** What a JavaScript computation throws here: the [Error] with which
    [exec] rejects (and which [run] throws on an error status), the
    SyntaxError of [JSON.parse], the TypeError of a property read on
    [undefined] or [null].  The texts of the last two are the engine's. *)
Inductive JsError : Type :=
| Error (message : string)
| SyntaxError
| TypeError.

Inductive Result (A : Type) : Type :=
| Return (a : A)
| Throw (e : JsError).
Arguments Return {A} a.
Arguments Throw {A} e.

(** One call of [exec]: the command line, the arguments and the
    environment handed to the child process. *)
Record Invocation : Type := {
  commandLine : string;
  argv : list string;
  env : gmap string string
}.

(** What one run of the external tool does: the chunks it writes to its
    standard output, in order, and the message of the error [exec] rejects
    with, if it fails. *)
Record ProcessRun : Type := {
  stdout_chunks : list string;
  exit_error : option string
}.

(** The observable world: the invocations made so far and the lines written
    with [console.log]. *)
Record World : Type := {
  invocations : list Invocation;
  console : list string
}.

Definition start : World := {| invocations := []; console := [] |}.

Definition M (A : Type) : Type := World -> Result A * World.

Definition ret {A} (a : A) : M A := fun w => (Return a, w).

Definition throw {A} (e : JsError) : M A := fun w => (Throw e, w).

Definition bind {A B} (c : M A) (k : A -> M B) : M B :=
  fun w =>
    match c w with
    | (Return a, w') => k a w'
    | (Throw e, w') => (Throw e, w')
    end.

Notation "x <- c ;; k" := (bind c (fun x => k))
  (at level 100, c at next level, right associativity).

Definition console_log (line : string) (w : World) : World :=
  {| invocations := invocations w; console := console w ++ [line] |}.

(** ** The data model of [deploy.ts] *)

Record SiteDeploy : Type := {
  site : string;
  target : option string;
  url : string;
  expireTime : string
}.

Record ChannelSuccessResult : Type := {
  result : JS.object SiteDeploy
}.

Record DeployConfig : Type := {
  projectId : string;
  targets : option (list string);
  config : option string;
  firebaseToolsVersion : option string
}.

(** [DeployConfig & { expires, channelId }]. *)
Record ChannelDeployConfig : Type := {
  deployConfig :> DeployConfig;
  expires : string;
  channelId : string
}.

Definition ProductionDeployConfig : Type := DeployConfig.

Record AuthOptions : Type := {
  gacFilename : option string;
  firebaseToken : option string
}.

(** The [opts] of [execWithCredentials]. *)
Module Opts.
Record t : Type := {
  debug : option bool;
  firebaseToolsVersion : option string
}.
End Opts.

(** What [interpretChannelDeployResult] returns. *)
Module Interpreted.
Record t : Type := {
  expireTime : string;
  expire_time_formatted : string;
  urls : list string
}.
End Interpreted.

(** [opts.debug || false]. *)
Definition debug_of (opts : Opts.t) : bool :=
  match Opts.debug opts with Some b => b | None => false end.

(** The retries a call may still make: one unless it already debugs. *)
Definition retries_left (opts : Opts.t) : nat :=
  if debug_of opts then 0%nat else 1%nat.

Definition inspect {A} (a : A) : {b : A | a = b} := exist _ a eq_refl.

(** The argument array built at the call of [exec]. *)
Definition composeArgs (args : list string) (projectId : string)
    (auth : AuthOptions) (debug : bool) : list string :=
  args
  ++ (if JS.truthy projectId then ["--project"; projectId] else [])
  ++ (match firebaseToken auth with
      | Some t => if JS.truthy t then ["--token"; t] else []
      | None => []
      end)
  ++ [if debug then "--debug" else ""].

(** [deployOutputBuf.length ? deployOutputBuf[length - 1].toString() : ""]. *)
Definition lastChunk (deployOutputBuf : list string) : string :=
  List.last deployOutputBuf "".

Section Deploy.

(** The external tool: what its [n]-th run (counting from 0) does on a given
    invocation. *)
Variable tool : nat -> Invocation -> ProcessRun.

(** [process.env]. *)
Variable process_env : gmap string string.

(** [new Date(s).toUTCString()]. *)
Variable Date_toUTCString : string -> string.

(** The text of the number a literal denotes. *)
Variable Number_toString : string -> string.

(** The [env] option of the call of [exec]. *)
Definition composeEnv (auth : AuthOptions) : gmap string string :=
  let base :=
    <["FIREBASE_DEPLOY_AGENT" := "oudyworks-action-firebase-deploy"]>
      process_env in
  match gacFilename auth with
  | Some f =>
      if JS.truthy f then <["GOOGLE_APPLICATION_CREDENTIALS" := f]> base
      else base
  | None => base
  end.

Definition invocationOf (args : list string) (projectId : string)
    (auth : AuthOptions) (debug : bool) (version : string) : Invocation :=
  {| commandLine := "npx firebase-tools@" +:+ version;
     argv := composeArgs args projectId auth debug;
     env := composeEnv auth |}.

(** [exec] with the stdout listener of [execWithCredentials]: the chunks are
    pushed on [buf] whether the run succeeds or not; the first component is
    the message of the rejection, if any. *)
Definition exec (inv : Invocation) (buf : list string) (w : World)
    : (option string * list string) * World :=
  let run := tool (length (invocations w)) inv in
  ((exit_error run, buf ++ stdout_chunks run),
   {| invocations := invocations w ++ [inv]; console := console w |}).

(** [execWithCredentials] (deploy.ts, lines 77 to 133).  The recursion is
    the retry: it is entered only from a call that does not debug, and the
    call it makes does. *)
Equations? execWithCredentials (args : list string) (projectId : string)
    (auth : AuthOptions) (opts : Opts.t) (w : World)
    : Result string * World by wf (retries_left opts) lt :=
execWithCredentials args projectId auth opts w
  with exec (invocationOf args projectId auth (debug_of opts)
               (JS.or_else (Opts.firebaseToolsVersion opts) "latest")) [] w := {
  | ((None, deployOutputBuf), w1) => (Return (lastChunk deployOutputBuf), w1)
  | ((Some message, deployOutputBuf), w1) with inspect (debug_of opts) := {
      | exist _ true Hdebug =>
          let w2 := console_log (String.concat "" deployOutputBuf) w1 in
          let w3 := console_log message w2 in
          (Throw (Error message), w3)
      | exist _ false Hdebug =>
          let w2 := console_log (String.concat "" deployOutputBuf) w1 in
          let w3 := console_log message w2 in
          let w4 :=
            console_log
              "Retrying deploy with the --debug flag for better error output"
              w3 in
          match
            execWithCredentials args projectId auth
              {| Opts.debug := Some true;
                 Opts.firebaseToolsVersion :=
                   Some (JS.or_else (Opts.firebaseToolsVersion opts) "latest") |}
              w4
          with
          | (Throw e, w5) => (Throw e, w5)
          | (Return _, w5) => (Return (lastChunk deployOutputBuf), w5)
          end } }.
Proof.
  unfold retries_left. rewrite Hdebug. simpl. lia.
Qed.

(** The invocation a call makes first and the one of its retry, and what
    the tool does on each when the call starts in world [w]. *)
Definition firstInvocation (args : list string) (projectId : string)
    (auth : AuthOptions) (opts : Opts.t) : Invocation :=
  invocationOf args projectId auth (debug_of opts)
    (JS.or_else (Opts.firebaseToolsVersion opts) "latest").

Definition retryInvocation (args : list string) (projectId : string)
    (auth : AuthOptions) (opts : Opts.t) : Invocation :=
  invocationOf args projectId auth true
    (JS.or_else (Opts.firebaseToolsVersion opts) "latest").

Definition firstRun (args : list string) (projectId : string)
    (auth : AuthOptions) (opts : Opts.t) (w : World) : ProcessRun :=
  tool (length (invocations w)) (firstInvocation args projectId auth opts).

Definition retryRun (args : list string) (projectId : string)
    (auth : AuthOptions) (opts : Opts.t) (w : World) : ProcessRun :=
  tool (S (length (invocations w))) (retryInvocation args projectId auth opts).

(** The base arguments of a preview deploy and of a production deploy. *)
Definition previewArgs (c : ChannelDeployConfig) : list string :=
  ["hosting:channel:deploy"; channelId c]
  ++ (match config c with
      | Some f => if JS.truthy f then ["--config"; f] else []
      | None => []
      end)
  ++ (match targets c with
      | Some ts =>
          if (0 <? length ts)%nat then ["--only"; JS.join "," ts] else []
      | None => []
      end)
  ++ (if JS.truthy (expires c) then ["--expires"; expires c] else []).

Definition productionArgs (c : ProductionDeployConfig) : list string :=
  ["deploy"]
  ++ (match config c with
      | Some f => if JS.truthy f then ["--config"; f] else []
      | None => []
      end)
  ++ (match targets c with
      | Some ts =>
          if (0 <? length ts)%nat then ["--only"; JS.join "," ts] else []
      | None => []
      end).

(** The options both deploy functions pass: [{ firebaseToolsVersion }]. *)
Definition deployOpts (c : DeployConfig) : Opts.t :=
  {| Opts.debug := None;
     Opts.firebaseToolsVersion := firebaseToolsVersion c |}.

(** The raw output text of a preview deploy and of a production deploy: the
    [await execWithCredentials(...)] of each. *)
Definition previewText (auth : AuthOptions)
    (deployConfig : ChannelDeployConfig) : M string :=
  execWithCredentials (previewArgs deployConfig) (projectId deployConfig) auth
    (deployOpts deployConfig).

Definition productionText (auth : AuthOptions)
    (productionDeployConfig : ProductionDeployConfig) : M string :=
  execWithCredentials (productionArgs productionDeployConfig)
    (projectId productionDeployConfig) auth
    (deployOpts productionDeployConfig).

(** [JSON.parse(s)] as a computation: the value or the SyntaxError. *)
Definition parseJSON (s : string) : Result JS.json :=
  match JS.JSON_parse s with
  | Some v => Return v
  | None => Throw SyntaxError
  end.

Definition lift {A} (r : Result A) : M A := fun w => (r, w).

(** [deployPreview] (lines 135 to 160) and [deployProductionSite] (lines 162
    to 184); the cast of the parsed value to a result type has no effect
    when the program runs. *)
Definition deployPreview (auth : AuthOptions)
    (deployConfig : ChannelDeployConfig) : M JS.json :=
  deploymentText <- previewText auth deployConfig ;;
  deploymentResult <- lift (parseJSON (JS.trim deploymentText)) ;;
  ret deploymentResult.

Definition deployProductionSite (auth : AuthOptions)
    (productionDeployConfig : ProductionDeployConfig) : M JS.json :=
  deploymentText <- productionText auth productionDeployConfig ;;
  deploymentResult <- lift (parseJSON deploymentText) ;;
  ret deploymentResult.

(** [interpretChannelDeployResult] (lines 59 to 73); [allSiteResults[0]] is
    [undefined] when there is no site, and reading its [expireTime] throws. *)
Definition interpretChannelDeployResult (deployResult : ChannelSuccessResult)
    : Result Interpreted.t :=
  let allSiteResults := JS.Object_values (result deployResult) in
  match allSiteResults !! 0%nat with
  | None => Throw TypeError
  | Some first =>
      let expireTime := expireTime first in
      let expire_time_formatted := Date_toUTCString expireTime in
      let urls := map url allSiteResults in
      Return
        {| Interpreted.expireTime := expireTime;
           Interpreted.expire_time_formatted := expire_time_formatted;
           Interpreted.urls := urls |}
  end.

(** The property read [v.k] on a parsed value, for the names the program
    reads ([status], [error]): none is an own or inherited property of an
    array, a string, a number or a boolean, and reading one of [null]
    throws. *)
Definition read_field (v : JS.json) (k : string) : Result (option JS.json) :=
  match v with
  | JS.JNull => Throw TypeError
  | JS.JObject ps => Return (JS.obj_get k ps)
  | _ => Return None
  end.

(** [v === s] for a string [s]. *)
Definition is_string (s : string) (v : option JS.json) : bool :=
  match v with
  | Some (JS.JString s') => String.eqb s' s
  | _ => false
  end.

(** [ToString], as [Error(...)] applies it to its argument. *)
Fixpoint ToString (v : JS.json) : string :=
  match v with
  | JS.JNull => "null"
  | JS.JBool true => "true"
  | JS.JBool false => "false"
  | JS.JNumber literal => Number_toString literal
  | JS.JString s => s
  | JS.JArray elements =>
      JS.join ","
        (map (fun e => match e with JS.JNull => "" | _ => ToString e end)
             elements)
  | JS.JObject _ => "[object Object]"
  end.

(** The status check of [run] after each deploy:
    [if (deployment.status === "error") throw Error(deployment.error)]. *)
Definition throwOnErrorStatus (deployment : JS.json) : Result JS.json :=
  match read_field deployment "status" with
  | Throw e => Throw e
  | Return status =>
      if is_string "error" status then
        match read_field deployment "error" with
        | Throw e => Throw e
        | Return None => Throw (Error "")
        | Return (Some message) => Throw (Error (ToString message))
        end
      else Return deployment
  end.

End Deploy.

(** ** Instances of the parameters *)

(** A tool that follows a script: its [n]-th run does what the [n]-th entry
    says, whatever the invocation; past the script it prints nothing and
    succeeds. *)
Definition succeeded (chunks : list string) : ProcessRun :=
  {| stdout_chunks := chunks; exit_error := None |}.

Definition failed (chunks : list string) (message : string) : ProcessRun :=
  {| stdout_chunks := chunks; exit_error := Some message |}.

Definition scripted (runs : list ProcessRun) : nat -> Invocation -> ProcessRun :=
  fun n _ => nth n runs (succeeded []).

(** A [Date] for timestamps of the form [YYYY-MM-DDTHH:mm:ss(.f+)Z] with
    fields in range (hour 00 to 23): on these it renders as [toUTCString]
    does, [Www, DD Mmm YYYY HH:mm:ss GMT].  Other strings are outside what
    it describes; it answers [Invalid Date] there. *)
Module Timestamp.

Local Open Scope Z_scope.

Definition digit (c : ascii) : option Z :=
  match JS.digit_val c with Some n => Some (Z.of_N n) | None => None end.

Definition number2 (a b : ascii) : option Z :=
  match digit a, digit b with
  | Some x, Some y => Some (10 * x + y)
  | _, _ => None
  end.

Definition number4 (a b c d : ascii) : option Z :=
  match number2 a b, number2 c d with
  | Some x, Some y => Some (100 * x + y)
  | _, _ => None
  end.

(** Days from 1970-01-01 to the given civil date. *)
Definition daysFromCivil (y m d : Z) : Z :=
  let y' := if m <=? 2 then y - 1 else y in
  let era := y' / 400 in
  let yoe := y' - era * 400 in
  let mp := if m <=? 2 then m + 9 else m - 3 in
  let doy := (153 * mp + 2) / 5 + d - 1 in
  let doe := yoe * 365 + yoe / 4 - yoe / 100 + doy in
  era * 146097 + doe - 719468.

Definition leap (y : Z) : bool :=
  (y mod 4 =? 0) && (negb (y mod 100 =? 0) || (y mod 400 =? 0)).

Definition daysInMonth (y m : Z) : Z :=
  if m =? 2 then (if leap y then 29 else 28)
  else if (m =? 4) || (m =? 6) || (m =? 9) || (m =? 11) then 30
  else 31.

Definition dayName (n : Z) : string :=
  nth (Z.to_nat n) ["Sun"; "Mon"; "Tue"; "Wed"; "Thu"; "Fri"; "Sat"]%string
      ""%string.

Definition monthName (m : Z) : string :=
  nth (Z.to_nat (m - 1))
      ["Jan"; "Feb"; "Mar"; "Apr"; "May"; "Jun"; "Jul"; "Aug"; "Sep"; "Oct";
       "Nov"; "Dec"]%string ""%string.

Definition is_char (n : N) (c : ascii) : bool := (JS.code c =? n)%N.

(** The end of the timestamp: an optional fraction, then [Z]. *)
Definition zone (rest : list ascii) : bool :=
  match rest with
  | [z] => is_char 90 z
  | dot :: frac =>
      is_char 46 dot
      && match List.rev frac with
         | z :: ((_ :: _) as ds) => is_char 90 z && forallb JS.is_digit ds
         | _ => false
         end
  | [] => false
  end.

Definition toUTCString (s : string) : string :=
  match JS.bytes s with
  | y1 :: y2 :: y3 :: y4 :: p1 :: m1 :: m2 :: p2 :: d1 :: d2 :: t
      :: h1 :: h2 :: c1 :: n1 :: n2 :: c2 :: s1 :: s2 :: rest =>
      match number4 y1 y2 y3 y4, number2 m1 m2, number2 d1 d2,
            number2 h1 h2, number2 n1 n2, number2 s1 s2 with
      | Some y, Some m, Some d, Some h, Some n, Some sec =>
          if is_char 45 p1 && is_char 45 p2 && is_char 84 t
             && is_char 58 c1 && is_char 58 c2 && zone rest
             && (1 <=? m) && (m <=? 12) && (1 <=? d) && (d <=? daysInMonth y m)
             && (h <=? 23) && (n <=? 59) && (sec <=? 59)
          then
            (dayName ((daysFromCivil y m d + 4) mod 7)
             +:+ ", " +:+ JS.text [d1; d2]
             +:+ " " +:+ monthName m
             +:+ " " +:+ JS.text [y1; y2; y3; y4]
             +:+ " " +:+ JS.text [h1; h2; c1; n1; n2; c2; s1; s2]
             +:+ " GMT")%string
          else "Invalid Date"%string
      | _, _, _, _, _, _ => "Invalid Date"%string
      end
  | _ => "Invalid Date"%string
  end.

End Timestamp.

(** The inputs of the examples. *)
Definition noAuth : AuthOptions :=
  {| gacFilename := None; firebaseToken := None |}.

Definition previewConfig : ChannelDeployConfig :=
  {| deployConfig :=
       {| projectId := "demo";
          targets := Some ["a"; "b"]%string;
          config := Some "firebase.json";
          firebaseToolsVersion := None |};
     expires := "7d";
     channelId := "preview-1" |}.

Definition productionConfig : ProductionDeployConfig :=
  {| projectId := "demo";
     targets := None;
     config := Some "firebase.json";
     firebaseToolsVersion := None |}.

Definition noDebug : Opts.t :=
  {| Opts.debug := Some false; Opts.firebaseToolsVersion := None |}.

Definition newline : string := String (JS.byte 10) "".
Definition formFeed : string := String (JS.byte 12) "".

(** A text with each apostrophe replaced by a double quote: JSON texts are
    written with apostrophes below. *)
Definition quoted (s : string) : string :=
  JS.text
    (map (fun c => if (JS.code c =? 39)%N then JS.byte 34 else c) (JS.bytes s)).

Definition successText : string :=
  quoted
    "{'status':'success','result':{'site1':{'site':'site1','url':'https://site1--pr1.web.app','expireTime':'2024-06-01T12:00:00.000Z'}}}".

Definition errorText : string :=
  quoted "{'status':'error','error':'HTTP Error: 403, The caller does not have permission'}".

(** A tool whose first two runs fail. *)
Definition failingTwice : nat -> Invocation -> ProcessRun :=
  scripted
    [failed ["Error: deploy failed"] "The process failed with exit code 1";
     failed ["[debug] request failed"; "Error: deploy failed"]
       "The process failed with exit code 2"].

(** A tool whose first run fails after some output and whose second run
    succeeds. *)
Definition failingOnce : nat -> Invocation -> ProcessRun :=
  scripted
    [failed ["Error: deploy failed"] "The process failed with exit code 1";
     succeeded ["[debug] deploying"; successText]].

(** A tool whose runs all succeed, writing the given text as one chunk. *)
Definition printing (text : string) : nat -> Invocation -> ProcessRun :=
  fun _ _ => succeeded [text].

(** The channel result of the specification's example, and one whose second
    key is an array index. *)
Definition siteA : SiteDeploy :=
  {| site := "siteA"; target := None; url := "https://a";
     expireTime := "2024-01-01T00:00:00.000Z" |}.

Definition siteB : SiteDeploy :=
  {| site := "siteB"; target := None; url := "https://b";
     expireTime := "2024-01-02T00:00:00.000Z" |}.

Definition twoSites : ChannelSuccessResult :=
  {| result := [("siteA", siteA); ("siteB", siteB)] |}.

Definition numberedSite : ChannelSuccessResult :=
  {| result := [("siteB", siteB); ("7", siteA)] |}.

Definition noSites : ChannelSuccessResult := {| result := [] |}.

(** ** The entry point: the targets input and the summary of a production deploy *)

(** The separators of [/\n|,/]. *)
Definition is_separator (c : ascii) : bool :=
  ((JS.code c =? 10) || (JS.code c =? 44))%N.

(** [s.split(/\n|,/)] on the bytes of [s]: the pieces between the
    separators, the empty ones included; [piece] holds, reversed, the bytes
    of the piece being read. *)
Fixpoint split_from (piece : list ascii) (l : list ascii)
    : list (list ascii) :=
  match l with
  | [] => [List.rev piece]
  | c :: l' =>
      if is_separator c then List.rev piece :: split_from [] l'
      else split_from (c :: piece) l'
  end.

Definition splitTargets (s : string) : list string :=
  map JS.text (split_from [] (JS.bytes s)).

(** The [targets] of the entry point (lines 53 to 59):
    [rawTargets ? rawTargets.split(/\n|,/).map(trim).filter(nonempty)
                : undefined]. *)
Definition parseTargets (rawTargets : string) : option (list string) :=
  if JS.truthy rawTargets then
    Some
      (List.filter (fun s => (0 <? String.length s)%nat)
         (map JS.trim (splitTargets rawTargets)))
  else None.

(** A byte sequence that begins with no white character, as [JS.drop_white]
    tells them. *)
Definition unmatched (w2 : ascii -> ascii -> bool)
    (w3 : ascii -> ascii -> ascii -> bool) (l : list ascii) : Prop :=
  match l with
  | [] => True
  | b1 :: l1 =>
      JS.white1 b1 = false
      /\ match l1 with
         | [] => True
         | b2 :: l2 =>
             w2 b1 b2 = false
             /\ match l2 with
                | [] => True
                | b3 :: _ => w3 b1 b2 b3 = false
                end
         end
  end.

(** A target as [parseTargets] leaves it: not empty, with no white space
    around it and no separator in it. *)
Definition cleanTarget (t : string) : Prop :=
  t <> ""
  /\ JS.trim t = t
  /\ Forall (fun c => is_separator c = false) (JS.bytes t).

(** A [result] that names no resource: missing, a number, a boolean,
    [null], or an empty object, array or string. *)
Definition emptyResult (result : option JS.json) : Prop :=
  match result with
  | Some (JS.JObject (_ :: _)) => False
  | Some (JS.JArray (_ :: _)) => False
  | Some (JS.JString (String _ _)) => False
  | _ => True
  end.

(** The decimal text of a length or of an index. *)
Definition decimal (n : nat) : string :=
  NilZero.string_of_uint (Nat.to_uint n).

(** The UTF-16 code units of a string, each as a string of its own: a
    character outside the basic plane gives its two surrogates. *)
Fixpoint code_units (l : list ascii) : list (list ascii) :=
  match l with
  | [] => []
  | b1 :: l1 =>
      if (JS.code b1 <? 0xC0)%N then [b1] :: code_units l1
      else
        match l1 with
        | [] => [[b1]]
        | b2 :: l2 =>
            if (JS.code b1 <? 0xE0)%N then [b1; b2] :: code_units l2
            else
              match l2 with
              | [] => [[b1; b2]]
              | b3 :: l3 =>
                  if (JS.code b1 <? 0xF0)%N then
                    [b1; b2; b3] :: code_units l3
                  else
                    match l3 with
                    | [] => [[b1; b2; b3]]
                    | b4 :: l4 =>
                        let cp :=
                          ((JS.code b1 - 0xF0) * 262144
                           + (JS.code b2 - 0x80) * 4096
                           + (JS.code b3 - 0x80) * 64
                           + (JS.code b4 - 0x80))%N in
                        JS.utf8 (0xD800 + (cp - 0x10000) / 1024)%N
                        :: JS.utf8 (0xDC00 + (cp - 0x10000) mod 1024)%N
                        :: code_units l4
                    end
              end
        end
  end.

(** [Object.keys(result)] with [result[key]] for each key, where [result]
    is [deployment.result || {}]: the properties of an object, the elements
    of an array, the code units of a string, nothing for a number, a
    boolean, [null] or [undefined]. *)
Definition resultEntries (result : option JS.json)
    : list (string * option JS.json) :=
  match result with
  | Some (JS.JObject ps) => map (fun k => (k, JS.obj_get k ps)) (JS.Object_keys ps)
  | Some (JS.JArray es) => imap (fun i e => (decimal i, Some e)) es
  | Some (JS.JString s) =>
      imap (fun i u => (decimal i, Some (JS.JString (JS.text u))))
           (code_units (JS.bytes s))
  | _ => []
  end.

(** The line pushed for one key (lines 121 to 129). *)
Definition describeResource (key : string) (val : option JS.json) : string :=
  match val with
  | Some (JS.JArray es) => key +:+ ": " +:+ decimal (length es) +:+ " item(s)"
  | Some (JS.JString s) => key +:+ ": " +:+ s
  | Some (JS.JObject _) => key +:+ ": updated"
  | _ => key
  end.

(** [deployedResources] after the loop of lines 117 to 133; an error in the
    loop is caught and ignored, and only reading [result] of [null] can
    raise one, before anything is pushed. *)
Definition deployedResources (deployment : JS.json) : list string :=
  match
    match deployment with
    | JS.JNull => Throw TypeError
    | JS.JObject ps => Return (JS.obj_get "result" ps)
    | _ => Return None
    end
  with
  | Return result =>
      map (fun kv => describeResource (fst kv) (snd kv)) (resultEntries result)
  | Throw _ => []
  end.

(** [summaryLines] (lines 113 to 139) and the summary handed to the check. *)
Definition summaryLines (projectId : string) (deployment : JS.json)
    : list string :=
  let hostname := projectId +:+ ".web.app" in
  let url := "https://" +:+ hostname +:+ "/" in
  let deployedResources := deployedResources deployment in
  ["Deployed resources:"]
  ++ (if (0 <? length deployedResources)%nat then deployedResources
      else ["hosting"])
  ++ ["Primary URL: [" +:+ hostname +:+ "](" +:+ url +:+ ")"].

Definition productionSummary (projectId : string) (deployment : JS.json)
    : string :=
  JS.join (String (JS.byte 10) "") (summaryLines projectId deployment).

(** ** Trimming and parsing

    [trim] removes more than JSON skips, but where a text is valid JSON the
    two agree: trimming a valid text leaves its value unchanged. *)

Section TrimParse.

Import JS.

Ltac each_byte b := destruct b as [[] [] [] [] [] [] [] []].

Lemma lex_scan_app st l1 l2 :
  lex_scan st (l1 ++ l2)
  = match lex_scan st l1 with
    | Some (st1, out1) =>
        match lex_scan st1 l2 with
        | Some (st2, out2) => Some (st2, out1 ++ out2)
        | None => None
        end
    | None => None
    end.
Proof.
  revert st. induction l1 as [|c l1 IH]; intros st; cbn [lex_scan app].
  - destruct (lex_scan st l2) as [[st2 out2]|]; reflexivity.
  - destruct (lex_step st c) as [[st' out]|]; [|reflexivity].
    rewrite IH. destruct (lex_scan st' l1) as [[st1 out1]|]; [|reflexivity].
    destruct (lex_scan st1 l2) as [[st2 out2]|]; [|reflexivity].
    rewrite app_assoc. reflexivity.
Qed.

(** A character met between tokens: either JSON skips it, or it is an
    ASCII character that [trim] keeps. *)
Lemma lex_default_first b st out :
  lex_default b = Some (st, out) ->
  (is_json_white b = true /\ st = LDefault /\ out = [])
  \/ (white1 b = false /\ (code b <? 128) = true).
Proof.
  intros Hstep.
  each_byte b; vm_compute in Hstep; try discriminate Hstep;
    injection Hstep as <- <-;
    first [ left; repeat split; reflexivity | right; split; reflexivity ].
Qed.

Lemma lex_default_settled b st out :
  lex_default b = Some (st, out) -> settled st.
Proof.
  intros Hstep.
  each_byte b; vm_compute in Hstep; try discriminate Hstep;
    injection Hstep as <- <-; vm_compute; reflexivity.
Qed.

Lemma lex_step_settled st b st' out :
  settled st -> lex_step st b = Some (st', out) -> settled st'.
Proof.
  intros Hst Hstep. destruct st as [|rest t|ph racc|racc|racc|racc seen v];
    cbn [lex_step] in Hstep.
  - exact (lex_default_settled _ _ _ Hstep).
  - destruct rest as [|c' rest']; [discriminate Hstep|].
    destruct (Ascii.eqb b c'); [|discriminate Hstep].
    cbn [settled forallb] in Hst. apply andb_prop in Hst as [_ Hrest].
    destruct rest'; injection Hstep as <- <-; [exact I|exact Hrest].
  - destruct (num_step ph b).
    + injection Hstep as <- <-. exact I.
    + destruct (num_accepting ph); [|discriminate Hstep].
      destruct (lex_default b) as [[st'' out'']|] eqn:Hdefault;
        [|discriminate Hstep].
      injection Hstep as <- <-. exact (lex_default_settled _ _ _ Hdefault).
  - destruct (code b =? 34); [injection Hstep as <- <-; exact I|].
    destruct (code b =? 92); [injection Hstep as <- <-; exact I|].
    destruct (code b <? 32); [discriminate Hstep|].
    injection Hstep as <- <-. exact I.
  - repeat match type of Hstep with
           | (if ?c then _ else _) = _ =>
               destruct c; [injection Hstep as <- <-; exact I|]
           end.
    discriminate Hstep.
  - destruct (hex_val b); [|discriminate Hstep].
    destruct seen as [|[|[|[|seen]]]]; injection Hstep as <- <-; exact I.
Qed.

Lemma lex_scan_settled l st st' out :
  settled st -> lex_scan st l = Some (st', out) -> settled st'.
Proof.
  revert st out. induction l as [|c l IH]; intros st out Hst Hscan;
    cbn [lex_scan] in Hscan.
  - injection Hscan as <- <-. exact Hst.
  - destruct (lex_step st c) as [[st1 out1]|] eqn:Hstep; [|discriminate Hscan].
    destruct (lex_scan st1 l) as [[st2 out2]|] eqn:Hrest; [|discriminate Hscan].
    injection Hscan as <- <-.
    exact (IH _ _ (lex_step_settled _ _ _ _ Hst Hstep) Hrest).
Qed.

(** The last character of a text that scans to an end: either JSON skips
    it, and the text without it ends as well, or it is an ASCII character
    that [trim] keeps. *)
Lemma lex_step_end st b st' out last :
  settled st ->
  lex_step st b = Some (st', out) ->
  lex_end st' = Some last ->
  (is_json_white b = true /\ lex_end st = Some (out ++ last))
  \/ (white1 b = false /\ (code b <? 128) = true).
Proof.
  intros Hst Hstep Hend.
  destruct st as [|rest t|ph racc|racc|racc|racc seen v].
  - cbn [lex_step] in Hstep.
    each_byte b; vm_compute in Hstep; try discriminate Hstep;
      injection Hstep as <- <-; vm_compute in Hend; try discriminate Hend;
      injection Hend as <-;
      first [ left; split; reflexivity | right; split; reflexivity ].
  - cbn [lex_step] in Hstep.
    destruct rest as [|c' rest']; [discriminate Hstep|].
    destruct (Ascii.eqb b c') eqn:Hsame; [|discriminate Hstep].
    apply Ascii.eqb_eq in Hsame. subst c'.
    cbn [settled forallb] in Hst. apply andb_prop in Hst as [Hletter _].
    right. unfold letter in Hletter. unfold white1.
    apply andb_prop in Hletter as [Hlow Hhigh].
    apply N.leb_le in Hlow. apply N.leb_le in Hhigh.
    split.
    + destruct (9 <=? code b) eqn:H1, (code b <=? 13) eqn:H2,
        (code b =? 32) eqn:H3; try reflexivity;
        first [ apply N.leb_le in H2; lia | apply N.eqb_eq in H3; lia ].
    + apply N.ltb_lt. lia.
  - destruct ph; each_byte b; vm_compute in Hstep; try discriminate Hstep;
      injection Hstep as <- <-; vm_compute in Hend; try discriminate Hend;
      injection Hend as <-;
      first [ left; split; reflexivity | right; split; reflexivity ].
  - each_byte b; vm_compute in Hstep; try discriminate Hstep;
      injection Hstep as <- <-; vm_compute in Hend; try discriminate Hend;
      injection Hend as <-; right; split; reflexivity.
  - exfalso. cbn [lex_step] in Hstep.
    repeat match type of Hstep with
           | (if ?c then _ else _) = _ =>
               destruct c; [injection Hstep as <- <-; discriminate Hend|]
           end.
    discriminate Hstep.
  - exfalso. cbn [lex_step] in Hstep.
    destruct (hex_val b); [|discriminate Hstep].
    destruct seen as [|[|[|[|seen]]]]; injection Hstep as <- <-;
      discriminate Hend.
Qed.

Lemma json_white_is_white b : is_json_white b = true -> white1 b = true.
Proof.
  each_byte b; vm_compute; intros H; first [reflexivity|discriminate H].
Qed.

(** An ASCII character is no part of a two- or three-byte white character,
    at either end. *)
Lemma white2_ascii_first b1 b2 : (code b1 <? 128) = true -> white2 b1 b2 = false.
Proof.
  intros Hascii. apply N.ltb_lt in Hascii. unfold white2.
  destruct (code b1 =? 0xC2) eqn:H; [apply N.eqb_eq in H; lia|reflexivity].
Qed.

Lemma white2_ascii_last b1 b2 : (code b2 <? 128) = true -> white2 b1 b2 = false.
Proof.
  intros Hascii. apply N.ltb_lt in Hascii. unfold white2.
  destruct (code b2 =? 0xA0) eqn:H; [apply N.eqb_eq in H; lia|].
  apply andb_false_r.
Qed.

Lemma white3_ascii_first b1 b2 b3 :
  (code b1 <? 128) = true -> white3 b1 b2 b3 = false.
Proof.
  intros Hascii. apply N.ltb_lt in Hascii. unfold white3.
  repeat match goal with
         | |- context [code b1 =? ?k] =>
             let H := fresh in
             destruct (code b1 =? k) eqn:H; [apply N.eqb_eq in H; lia|]
         end.
  reflexivity.
Qed.

Lemma white3_ascii_last b1 b2 b3 :
  (code b3 <? 128) = true -> white3 b1 b2 b3 = false.
Proof.
  intros Hascii. apply N.ltb_lt in Hascii. unfold white3.
  repeat match goal with
         | |- context [code b3 =? ?k] =>
             let H := fresh in
             destruct (code b3 =? k) eqn:H; [apply N.eqb_eq in H; lia|]
         end.
  destruct (0x80 <=? code b3) eqn:Hrange; [apply N.leb_le in Hrange; lia|].
  rewrite !andb_false_r. reflexivity.
Qed.

Lemma trimStart_ascii b l :
  white1 b = false -> (code b <? 128) = true ->
  trimStart_bytes (b :: l) = b :: l.
Proof.
  intros Hwhite Hascii. unfold trimStart_bytes. cbn [drop_white].
  rewrite Hwhite. destruct l as [|b2 [|b3 l]]; [reflexivity| |].
  - rewrite (white2_ascii_first _ _ Hascii). reflexivity.
  - rewrite (white2_ascii_first _ _ Hascii), (white3_ascii_first _ _ _ Hascii).
    reflexivity.
Qed.

Lemma trimEnd_ascii l b :
  white1 b = false -> (code b <? 128) = true ->
  trimEnd_bytes (l ++ [b]) = l ++ [b].
Proof.
  intros Hwhite Hascii. unfold trimEnd_bytes. rewrite rev_app_distr.
  cbn [List.rev app drop_white]. rewrite Hwhite.
  assert (Hback : List.rev (b :: List.rev l) = l ++ [b]).
  { cbn [List.rev]. rewrite rev_involutive. reflexivity. }
  destruct (List.rev l) as [|b2 [|b3 r]]; cbn beta.
  - exact Hback.
  - rewrite (white2_ascii_last _ _ Hascii). exact Hback.
  - rewrite (white2_ascii_last _ _ Hascii), (white3_ascii_last _ _ _ Hascii).
    exact Hback.
Qed.

Lemma trimEnd_white l b :
  white1 b = true -> trimEnd_bytes (l ++ [b]) = trimEnd_bytes l.
Proof.
  intros Hwhite. unfold trimEnd_bytes. rewrite rev_app_distr.
  cbn [List.rev app drop_white]. rewrite Hwhite. reflexivity.
Qed.

(** Trimming the front of a text that scans to an end changes nothing of
    its tokens. *)
Lemma lex_trimStart l ts : lex l = Some ts -> lex (trimStart_bytes l) = Some ts.
Proof.
  induction l as [|b l IH]; intros Hlex; [exact Hlex|].
  unfold lex in Hlex. cbn [lex_scan lex_step] in Hlex.
  destruct (lex_default b) as [[st out]|] eqn:Hfirst; [|discriminate Hlex].
  destruct (lex_default_first _ _ _ Hfirst) as [(Hwhite & -> & ->)|[Hkept Hascii]].
  - assert (Hrest : lex l = Some ts).
    { unfold lex. destruct (lex_scan LDefault l) as [[st' out']|];
        [exact Hlex|discriminate Hlex]. }
    unfold trimStart_bytes. cbn [drop_white].
    rewrite (json_white_is_white _ Hwhite). exact (IH Hrest).
  - rewrite (trimStart_ascii _ _ Hkept Hascii).
    unfold lex. cbn [lex_scan lex_step]. rewrite Hfirst. exact Hlex.
Qed.

(** And so does trimming its end. *)
Lemma lex_trimEnd l ts : lex l = Some ts -> lex (trimEnd_bytes l) = Some ts.
Proof.
  revert ts. induction l as [|b l IH] using rev_ind; intros ts Hlex;
    [exact Hlex|].
  unfold lex in Hlex. rewrite lex_scan_app in Hlex.
  destruct (lex_scan LDefault l) as [[st out]|] eqn:Hscan;
    [|discriminate Hlex].
  cbn [lex_scan] in Hlex.
  destruct (lex_step st b) as [[st' out']|] eqn:Hstep; [|discriminate Hlex].
  destruct (lex_end st') as [last|] eqn:Hend; [|discriminate Hlex].
  injection Hlex as <-.
  pose proof (lex_scan_settled l LDefault st out I Hscan) as Hst.
  destruct (lex_step_end _ _ _ _ _ Hst Hstep Hend)
    as [[Hwhite Hbefore]|[Hkept Hascii]].
  - rewrite (trimEnd_white _ _ (json_white_is_white _ Hwhite)).
    apply IH. unfold lex. rewrite Hscan, Hbefore.
    rewrite app_nil_r, app_assoc. reflexivity.
  - rewrite (trimEnd_ascii _ _ Hkept Hascii).
    unfold lex. rewrite lex_scan_app, Hscan. cbn [lex_scan].
    rewrite Hstep, Hend. reflexivity.
Qed.

(** Trimming a valid JSON text leaves its value unchanged. *)
Theorem JSON_parse_trim s v :
  JSON_parse s = Some v -> JSON_parse (trim s) = Some v.
Proof.
  unfold JSON_parse, trim, bytes, text. intros Hparse.
  destruct (lex (list_ascii_of_string s)) as [ts|] eqn:Hlex;
    [|discriminate Hparse].
  rewrite list_ascii_of_string_of_list_ascii.
  rewrite (lex_trimEnd _ _ (lex_trimStart _ _ Hlex)). exact Hparse.
Qed.

End TrimParse.

(** ** The deploy executor *)

Section Executor.

Context (tool : nat -> Invocation -> ProcessRun).
Context (process_env : gmap string string).

Lemma or_else_latest (o : option string) :
  JS.or_else (Some (JS.or_else o "latest")) "latest" = JS.or_else o "latest".
Proof.
  destruct o as [[|c s]|]; reflexivity.
Qed.

Lemma debug_of_forced (v : option string) :
  debug_of {| Opts.debug := Some true; Opts.firebaseToolsVersion := v |} = true.
Proof. reflexivity. Qed.

Lemma invocations_console_log line w :
  invocations (console_log line w) = invocations w.
Proof. reflexivity. Qed.

(** The retry runs the invocation of the first attempt, under [debug]. *)
Lemma firstInvocation_forced args projectId auth opts :
  firstInvocation process_env args projectId auth
    {| Opts.debug := Some true;
       Opts.firebaseToolsVersion :=
         Some (JS.or_else (Opts.firebaseToolsVersion opts) "latest") |}
  = retryInvocation process_env args projectId auth opts.
Proof.
  unfold firstInvocation, retryInvocation. cbn [Opts.firebaseToolsVersion].
  rewrite or_else_latest, debug_of_forced. reflexivity.
Qed.

Lemma firstRun_forced args projectId auth opts w :
  firstRun tool process_env args projectId auth
    {| Opts.debug := Some true;
       Opts.firebaseToolsVersion :=
         Some (JS.or_else (Opts.firebaseToolsVersion opts) "latest") |} w
  = tool (length (invocations w))
      (retryInvocation process_env args projectId auth opts).
Proof.
  unfold firstRun. rewrite firstInvocation_forced. reflexivity.
Qed.

(** The body of [execWithCredentials], one level unfolded. *)
Lemma execWithCredentials_eq args projectId auth opts w :
  execWithCredentials tool process_env args projectId auth opts w =
    let run := firstRun tool process_env args projectId auth opts w in
    let w1 :=
      {| invocations :=
           invocations w ++ [firstInvocation process_env args projectId auth opts];
         console := console w |} in
    match exit_error run with
    | None => (Return (lastChunk (stdout_chunks run)), w1)
    | Some message =>
        let w3 :=
          console_log message
            (console_log (String.concat "" (stdout_chunks run)) w1) in
        if debug_of opts then (Throw (Error message), w3)
        else
          match
            execWithCredentials tool process_env args projectId auth
              {| Opts.debug := Some true;
                 Opts.firebaseToolsVersion :=
                   Some (JS.or_else (Opts.firebaseToolsVersion opts) "latest") |}
              (console_log
                 "Retrying deploy with the --debug flag for better error output"
                 w3)
          with
          | (Throw e, w5) => (Throw e, w5)
          | (Return _, w5) => (Return (lastChunk (stdout_chunks run)), w5)
          end
    end.
Proof.
  rewrite execWithCredentials_equation_1.
  unfold exec, firstRun, firstInvocation. cbn zeta.
  destruct (exit_error _) as [message|] eqn:Hexit; cbn; [|reflexivity].
  destruct (debug_of opts) eqn:Hdebug; reflexivity.
Qed.

(** A first run that succeeds ends the call. *)
Lemma execWithCredentials_success args projectId auth opts w :
  exit_error (firstRun tool process_env args projectId auth opts w) = None ->
  execWithCredentials tool process_env args projectId auth opts w =
    (Return
       (lastChunk
          (stdout_chunks (firstRun tool process_env args projectId auth opts w))),
     {| invocations :=
          invocations w ++ [firstInvocation process_env args projectId auth opts];
        console := console w |}).
Proof.
  intros Hexit. rewrite execWithCredentials_eq. cbn zeta.
  rewrite Hexit. reflexivity.
Qed.

(** A failure under [debug] is rethrown at once. *)
Lemma execWithCredentials_debug_failure args projectId auth opts w message :
  debug_of opts = true ->
  exit_error (firstRun tool process_env args projectId auth opts w)
    = Some message ->
  fst (execWithCredentials tool process_env args projectId auth opts w)
    = Throw (Error message)
  /\ invocations
       (snd (execWithCredentials tool process_env args projectId auth opts w))
     = invocations w ++ [firstInvocation process_env args projectId auth opts].
Proof.
  intros Hdebug Hexit. rewrite execWithCredentials_eq. cbn zeta.
  rewrite Hexit, Hdebug. split; reflexivity.
Qed.

(** A failure without [debug] is followed by one more run, under [debug];
    the outcome of the call is decided by that run. *)
Lemma execWithCredentials_retry args projectId auth opts w message :
  debug_of opts = false ->
  exit_error (firstRun tool process_env args projectId auth opts w)
    = Some message ->
  fst (execWithCredentials tool process_env args projectId auth opts w)
    = match
        exit_error (retryRun tool process_env args projectId auth opts w)
      with
      | Some message' => Throw (Error message')
      | None =>
          Return
            (lastChunk
               (stdout_chunks
                  (firstRun tool process_env args projectId auth opts w)))
      end
  /\ invocations
       (snd (execWithCredentials tool process_env args projectId auth opts w))
     = invocations w
       ++ [firstInvocation process_env args projectId auth opts;
           retryInvocation process_env args projectId auth opts].
Proof.
  intros Hdebug Hexit. rewrite execWithCredentials_eq. cbn zeta.
  rewrite Hexit, Hdebug.
  rewrite execWithCredentials_eq. cbn zeta.
  rewrite debug_of_forced, firstRun_forced, firstInvocation_forced.
  rewrite !invocations_console_log. cbn [invocations].
  rewrite length_app. cbn [length]. rewrite Nat.add_1_r.
  fold (retryRun tool process_env args projectId auth opts w).
  destruct (exit_error (retryRun _ _ _ _ _ _ _)); cbn [fst snd];
    rewrite ?invocations_console_log; cbn [invocations];
    rewrite <- app_assoc; split; reflexivity.
Qed.

(** Whatever happens, the first invocation of a call is the one composed
    from its arguments. *)
Lemma first_invocation_recorded args projectId auth opts w :
  exists rest,
    invocations
      (snd (execWithCredentials tool process_env args projectId auth opts w))
    = invocations w
      ++ firstInvocation process_env args projectId auth opts :: rest.
Proof.
  destruct (exit_error (firstRun tool process_env args projectId auth opts w))
    as [message|] eqn:Hexit.
  - destruct (debug_of opts) eqn:Hdebug.
    + exists [].
      apply (execWithCredentials_debug_failure _ _ _ _ _ _ Hdebug Hexit).
    + exists [retryInvocation process_env args projectId auth opts].
      apply (execWithCredentials_retry _ _ _ _ _ _ Hdebug Hexit).
  - exists []. rewrite (execWithCredentials_success _ _ _ _ _ Hexit).
    reflexivity.
Qed.

(** No call runs the tool more than twice. *)
Lemma at_most_two_runs args projectId auth opts w :
  (length
     (invocations
        (snd (execWithCredentials tool process_env args projectId auth opts w)))
   <= length (invocations w) + 2)%nat.
Proof.
  destruct (exit_error (firstRun tool process_env args projectId auth opts w))
    as [message|] eqn:Hexit.
  - destruct (debug_of opts) eqn:Hdebug.
    + destruct (execWithCredentials_debug_failure _ _ _ _ _ _ Hdebug Hexit)
        as [_ ->].
      rewrite length_app. cbn [length]. lia.
    + destruct (execWithCredentials_retry _ _ _ _ _ _ Hdebug Hexit) as [_ ->].
      rewrite length_app. cbn [length]. lia.
  - rewrite (execWithCredentials_success _ _ _ _ _ Hexit). cbn [snd invocations].
    rewrite length_app. cbn [length]. lia.
Qed.

(** C1.  When the first run of the tool fails: without [debug] the call
    makes exactly one more run, with the same command line, arguments and
    environment except that [--debug] is passed, and if that run fails too
    its error is what the call throws, after two runs in all; under [debug]
    the error of the first run is thrown at once, after that single run. *)
Theorem retry_exactly_once_with_debug args projectId auth opts w message :
  exit_error (firstRun tool process_env args projectId auth opts w)
    = Some message ->
  let version := JS.or_else (Opts.firebaseToolsVersion opts) "latest" in
  let outcome :=
    execWithCredentials tool process_env args projectId auth opts w in
  (debug_of opts = false ->
     invocations (snd outcome)
     = invocations w
       ++ [invocationOf process_env args projectId auth false version;
           invocationOf process_env args projectId auth true version]
     /\ forall message',
          exit_error (retryRun tool process_env args projectId auth opts w)
            = Some message' ->
          fst outcome = Throw (Error message'))
  /\ (debug_of opts = true ->
        invocations (snd outcome)
        = invocations w
          ++ [invocationOf process_env args projectId auth true version]
        /\ fst outcome = Throw (Error message)).
Proof.
  intros Hexit version outcome. split; intros Hdebug.
  - destruct (execWithCredentials_retry _ _ _ _ _ _ Hdebug Hexit)
      as [Hres Htrace].
    split.
    + subst outcome version. rewrite Htrace.
      unfold firstInvocation, retryInvocation. rewrite Hdebug. reflexivity.
    + intros message' Hretry. subst outcome. rewrite Hres, Hretry.
      reflexivity.
  - destruct (execWithCredentials_debug_failure _ _ _ _ _ _ Hdebug Hexit)
      as [Hres Htrace].
    split; [|exact Hres].
    subst outcome version. rewrite Htrace.
    unfold firstInvocation. rewrite Hdebug. reflexivity.
Qed.

(** C2, as the code has it.  The argument list of a call's first invocation
    is [args], then [--project] and the project id iff the id is not empty,
    then [--token] and the token iff there is a non-empty one, then exactly
    one more argument: [--debug] iff [debug] is true, and the empty string
    in its place otherwise. *)
Theorem debug_flag_or_empty_placeholder args projectId auth opts w :
  exists inv rest,
    invocations
      (snd (execWithCredentials tool process_env args projectId auth opts w))
    = invocations w ++ inv :: rest
    /\ argv inv
       = (args
          ++ (if JS.truthy projectId then ["--project"; projectId] else [])
          ++ (match firebaseToken auth with
              | Some t => if JS.truthy t then ["--token"; t] else []
              | None => []
              end))
         ++ [if debug_of opts then "--debug" else ""]
    /\ (List.last (argv inv) "" = "--debug" <-> debug_of opts = true)
    /\ (List.last (argv inv) "--debug" = "" <-> debug_of opts = false).
Proof.
  destruct (first_invocation_recorded args projectId auth opts w)
    as [rest Htrace].
  exists (firstInvocation process_env args projectId auth opts), rest.
  split; [exact Htrace|].
  assert (Hargv :
    argv (firstInvocation process_env args projectId auth opts)
    = (args
       ++ (if JS.truthy projectId then ["--project"; projectId] else [])
       ++ (match firebaseToken auth with
           | Some t => if JS.truthy t then ["--token"; t] else []
           | None => []
           end))
      ++ [if debug_of opts then "--debug" else ""]).
  { unfold firstInvocation, invocationOf, composeArgs. cbn [argv].
    rewrite <- !app_assoc. reflexivity. }
  split; [exact Hargv|].
  rewrite Hargv, !last_last.
  destruct (debug_of opts); split; split; intros H; try reflexivity;
    discriminate H.
Qed.

(** C7, as the code has it.  When the first run of the tool succeeds, the
    call returns the last chunk the run wrote, as it is, without trimming;
    the empty string if the run wrote no chunk. *)
Theorem returns_last_chunk_as_written args projectId auth opts w :
  exit_error (firstRun tool process_env args projectId auth opts w) = None ->
  let chunks :=
    stdout_chunks (firstRun tool process_env args projectId auth opts w) in
  let returned :=
    fst (execWithCredentials tool process_env args projectId auth opts w) in
  (chunks = [] -> returned = Return "")
  /\ (forall front chunk, chunks = front ++ [chunk] -> returned = Return chunk).
Proof.
  intros Hexit chunks returned. subst returned.
  rewrite (execWithCredentials_success _ _ _ _ _ Hexit). cbn [fst].
  fold chunks. unfold lastChunk. split.
  - intros ->. reflexivity.
  - intros front chunk ->. rewrite last_last. reflexivity.
Qed.

End Executor.

(** A failed first run followed by a successful retry: the call returns
    normally, and what it returns is taken from the output of the failed
    run. *)
Lemma retry_success_returns_first_buffer
    tool process_env args projectId auth opts w message :
  debug_of opts = false ->
  exit_error (firstRun tool process_env args projectId auth opts w)
    = Some message ->
  exit_error (retryRun tool process_env args projectId auth opts w) = None ->
  fst (execWithCredentials tool process_env args projectId auth opts w)
  = Return
      (lastChunk
         (stdout_chunks (firstRun tool process_env args projectId auth opts w))).
Proof.
  intros Hdebug Hexit Hretry.
  destruct (execWithCredentials_retry _ _ _ _ _ _ _ _ Hdebug Hexit) as [Hres _].
  rewrite Hres, Hretry. reflexivity.
Qed.

Lemma retry_exactly_once_with_debug_witness :
  exit_error (firstRun failingTwice ∅ ["deploy"] "demo" noAuth noDebug start)
    = Some "The process failed with exit code 1"
  /\ invocations
       (snd (execWithCredentials failingTwice ∅ ["deploy"] "demo" noAuth
               noDebug start))
     = [invocationOf ∅ ["deploy"] "demo" noAuth false "latest";
        invocationOf ∅ ["deploy"] "demo" noAuth true "latest"]
  /\ fst (execWithCredentials failingTwice ∅ ["deploy"] "demo" noAuth noDebug
            start)
     = Throw (Error "The process failed with exit code 2").
Proof.
  assert (Hexit :
    exit_error (firstRun failingTwice ∅ ["deploy"] "demo" noAuth noDebug start)
    = Some "The process failed with exit code 1") by reflexivity.
  split; [exact Hexit|].
  destruct (retry_exactly_once_with_debug failingTwice ∅ ["deploy"] "demo"
              noAuth noDebug start _ Hexit) as [Hretry _].
  destruct (Hretry eq_refl) as [Htrace Hthrow].
  split; [exact Htrace | exact (Hthrow _ eq_refl)].
Defined.

(** C2 fails as stated: without [debug] the argument list ends with an
    empty-string argument. *)
Lemma empty_argument_without_debug :
  debug_of noDebug = false
  /\ map argv
       (invocations
          (snd (execWithCredentials (printing successText) ∅ ["deploy"] "demo"
                  noAuth noDebug start)))
     = [["deploy"; "--project"; "demo"; ""]]
  /\ In "" ["deploy"; "--project"; "demo"; ""].
Proof.
  split; [reflexivity|]. split; [vm_compute; reflexivity|].
  simpl. tauto.
Qed.

(** C4.  With a first run that fails after writing [Error: deploy failed]
    and a retry that succeeds, writing the success result as its last
    chunk, the call returns normally and the text it returns is the chunk
    of the failed run. *)
Theorem retry_success_returns_failed_output :
  exit_error
    (firstRun failingOnce ∅ (previewArgs previewConfig) "demo" noAuth
       {| Opts.debug := None; Opts.firebaseToolsVersion := None |} start)
    = Some "The process failed with exit code 1"
  /\ retryRun failingOnce ∅ (previewArgs previewConfig) "demo" noAuth
       {| Opts.debug := None; Opts.firebaseToolsVersion := None |} start
     = succeeded ["[debug] deploying"; successText]
  /\ fst (execWithCredentials failingOnce ∅ (previewArgs previewConfig) "demo"
            noAuth
            {| Opts.debug := None; Opts.firebaseToolsVersion := None |} start)
     = Return "Error: deploy failed".
Proof.
  split; [reflexivity|]. split; [reflexivity|].
  vm_compute. reflexivity.
Qed.

(** C7 fails as stated: the text returned is not trimmed. *)
Lemma returned_text_is_not_trimmed :
  fst (execWithCredentials (printing (" {} " +:+ newline)) ∅ ["deploy"] "demo"
         noAuth noDebug start)
  = Return (" {} " +:+ newline)
  /\ JS.trim (" {} " +:+ newline) = "{}"
  /\ " {} " +:+ newline <> "{}".
Proof.
  split; [vm_compute; reflexivity|]. split; [vm_compute; reflexivity|].
  discriminate.
Qed.

Lemma returns_last_chunk_as_written_witness :
  exit_error
    (firstRun (scripted [succeeded ["[info] done"; " {} " +:+ newline]]) ∅
       ["deploy"] "demo" noAuth noDebug start) = None
  /\ fst (execWithCredentials
            (scripted [succeeded ["[info] done"; " {} " +:+ newline]]) ∅
            ["deploy"] "demo" noAuth noDebug start)
     = Return (" {} " +:+ newline).
Proof.
  assert (Hexit :
    exit_error
      (firstRun (scripted [succeeded ["[info] done"; " {} " +:+ newline]]) ∅
         ["deploy"] "demo" noAuth noDebug start) = None) by reflexivity.
  split; [exact Hexit|].
  exact (proj2
           (returns_last_chunk_as_written
              (scripted [succeeded ["[info] done"; " {} " +:+ newline]]) ∅
              ["deploy"] "demo" noAuth noDebug start Hexit)
           ["[info] done"] (" {} " +:+ newline) eq_refl).
Defined.

(** ** Parsing the result *)

Section Parsing.

Context (tool : nat -> Invocation -> ProcessRun).
Context (process_env : gmap string string).
Context (Number_toString : string -> string).

(** What the parsing step makes of a text. *)
Lemma deployPreview_parses auth c w text w' :
  previewText tool process_env auth c w = (Return text, w') ->
  deployPreview tool process_env auth c w
  = (parseJSON (JS.trim text), w').
Proof.
  intros Htext. unfold deployPreview, bind, lift, ret. rewrite Htext.
  destruct (parseJSON (JS.trim text)); reflexivity.
Qed.

Lemma deployProductionSite_parses auth p w text w' :
  productionText tool process_env auth p w = (Return text, w') ->
  deployProductionSite tool process_env auth p w
  = (parseJSON text, w').
Proof.
  intros Htext. unfold deployProductionSite, bind, lift, ret. rewrite Htext.
  destruct (parseJSON text); reflexivity.
Qed.

(** Parsing leaves the world as the executor left it. *)
Lemma deployPreview_world auth c w :
  snd (deployPreview tool process_env auth c w)
  = snd (previewText tool process_env auth c w).
Proof.
  unfold deployPreview, bind, lift, ret.
  destruct (previewText tool process_env auth c w) as [[text|e] w'];
    [destruct (parseJSON (JS.trim text))|]; reflexivity.
Qed.

(** C3, as the code has it.  A raw output text that is not valid JSON
    (after trimming, for a preview deploy) makes the parsing step throw the
    SyntaxError of [JSON.parse], which is not the error of a failed process;
    a text that is valid JSON is returned as parsed, whatever it holds: no
    status field is looked at. *)
Theorem unparsable_output_throws_SyntaxError auth
    (c : ChannelDeployConfig) (p : ProductionDeployConfig) w text w' :
  (previewText tool process_env auth c w = (Return text, w') ->
     (JS.JSON_parse (JS.trim text) = None ->
        deployPreview tool process_env auth c w = (Throw SyntaxError, w'))
     /\ (forall v, JS.JSON_parse (JS.trim text) = Some v ->
           deployPreview tool process_env auth c w = (Return v, w')))
  /\ (productionText tool process_env auth p w = (Return text, w') ->
        (JS.JSON_parse text = None ->
           deployProductionSite tool process_env auth p w
           = (Throw SyntaxError, w'))
        /\ (forall v, JS.JSON_parse text = Some v ->
              deployProductionSite tool process_env auth p w = (Return v, w')))
  /\ (forall message, SyntaxError <> Error message).
Proof.
  split; [|split].
  - intros Htext. rewrite (deployPreview_parses _ _ _ _ _ Htext).
    unfold parseJSON. split; [intros ->|intros v ->]; reflexivity.
  - intros Htext. rewrite (deployProductionSite_parses _ _ _ _ _ Htext).
    unfold parseJSON. split; [intros ->|intros v ->]; reflexivity.
  - discriminate.
Qed.

(** C9.  A raw output text that parses as an object whose [status] is
    [error] and whose [error] is a message is returned by both deploy
    functions as an ordinary value; it is the status check of [run] that throws,
    an [Error] with that message. *)
Theorem error_status_is_returned_then_thrown_by_run auth
    (c : ChannelDeployConfig) (p : ProductionDeployConfig) w text w'
    properties message :
  JS.JSON_parse text = Some (JS.JObject properties) ->
  JS.obj_get "status" properties = Some (JS.JString "error") ->
  JS.obj_get "error" properties = Some (JS.JString message) ->
  (previewText tool process_env auth c w = (Return text, w') ->
     deployPreview tool process_env auth c w
     = (Return (JS.JObject properties), w'))
  /\ (productionText tool process_env auth p w = (Return text, w') ->
        deployProductionSite tool process_env auth p w
        = (Return (JS.JObject properties), w'))
  /\ throwOnErrorStatus Number_toString (JS.JObject properties)
     = Throw (Error message).
Proof.
  intros Hparse Hstatus Herror. split; [|split].
  - intros Htext.
    rewrite (deployPreview_parses _ _ _ _ _ Htext). unfold parseJSON.
    rewrite (JSON_parse_trim _ _ Hparse). reflexivity.
  - intros Htext.
    rewrite (deployProductionSite_parses _ _ _ _ _ Htext). unfold parseJSON.
    rewrite Hparse. reflexivity.
  - unfold throwOnErrorStatus, read_field. rewrite Hstatus, Herror.
    reflexivity.
Qed.

(** C8.  The first invocation of a preview deploy has, before what the
    executor appends, the arguments [hosting:channel:deploy] and the channel
    id, then [--config] and the file iff a non-empty one is set, then
    [--only] and the targets joined by commas iff there is at least one,
    then [--expires] and the duration iff it is not empty; for the example
    configuration that is the list of the specification. *)
Theorem preview_arguments auth (c : ChannelDeployConfig) w :
  (exists inv rest,
     invocations (snd (deployPreview tool process_env auth c w))
     = invocations w ++ inv :: rest
     /\ argv inv
        = (["hosting:channel:deploy"; channelId c]
           ++ (match config c with
               | Some f => if JS.truthy f then ["--config"; f] else []
               | None => []
               end)
           ++ (match targets c with
               | Some ts =>
                   match ts with
                   | [] => []
                   | _ :: _ => ["--only"; JS.join "," ts]
                   end
               | None => []
               end)
           ++ (if JS.truthy (expires c) then ["--expires"; expires c] else []))
          ++ composeArgs [] (projectId c) auth false)
  /\ previewArgs previewConfig
     = ["hosting:channel:deploy"; "preview-1"; "--config"; "firebase.json";
        "--only"; "a,b"; "--expires"; "7d"].
Proof.
  split; [|reflexivity].
  rewrite deployPreview_world. unfold previewText.
  destruct (first_invocation_recorded tool process_env (previewArgs c)
              (projectId c) auth (deployOpts c) w) as [rest Htrace].
  eexists; exists rest. split; [exact Htrace|].
  unfold firstInvocation, invocationOf, composeArgs, previewArgs. cbn [argv].
  cbn [debug_of deployOpts Opts.debug app].
  destruct (targets c) as [[|t ts]|]; reflexivity.
Qed.

(** C10, as the code has it.  On one and the same raw text a preview deploy
    parses the trimmed text and a production deploy the text as it is;
    what the second returns the first returns too.  There are texts on
    which the first returns a value and the second throws: a result
    preceded by a form feed, which [trim] removes and JSON does not
    accept. *)
Theorem preview_trims_production_does_not auth
    (c : ChannelDeployConfig) (p : ProductionDeployConfig) w text w1 w2 :
  previewText tool process_env auth c w = (Return text, w1) ->
  productionText tool process_env auth p w = (Return text, w2) ->
  fst (deployPreview tool process_env auth c w) = parseJSON (JS.trim text)
  /\ fst (deployProductionSite tool process_env auth p w) = parseJSON text
  /\ (forall v,
        fst (deployProductionSite tool process_env auth p w) = Return v ->
        fst (deployPreview tool process_env auth c w) = Return v)
  /\ (exists v,
        fst (deployPreview (printing (formFeed +:+ successText)) ∅ noAuth
               previewConfig start) = Return v
        /\ fst (deployProductionSite (printing (formFeed +:+ successText)) ∅
                  noAuth productionConfig start) = Throw SyntaxError).
Proof.
  intros Hpreview Hproduction.
  rewrite (deployPreview_parses _ _ _ _ _ Hpreview).
  rewrite (deployProductionSite_parses _ _ _ _ _ Hproduction).
  split; [reflexivity|]. split; [reflexivity|]. split.
  - cbn [fst]. unfold parseJSON. intros v Hreturned.
    destruct (JS.JSON_parse text) as [v'|] eqn:Hparse;
      [|discriminate Hreturned].
    injection Hreturned as ->.
    rewrite (JSON_parse_trim _ _ Hparse). reflexivity.
  - eexists. split; vm_compute; reflexivity.
Qed.

End Parsing.

(** C3 fails as stated: a valid JSON text without a status field is
    returned as a result, by both deploy functions. *)
Lemma status_is_not_checked :
  fst (deployPreview (printing "{}") ∅ noAuth previewConfig start)
  = Return (JS.JObject [])
  /\ fst (deployProductionSite (printing "{}") ∅ noAuth productionConfig start)
     = Return (JS.JObject [])
  /\ read_field (JS.JObject []) "status" = Return None.
Proof.
  split; [vm_compute; reflexivity|]. split; [vm_compute; reflexivity|].
  reflexivity.
Qed.

Lemma unparsable_output_throws_SyntaxError_witness :
  previewText (printing "not json") ∅ noAuth previewConfig start
  = (Return "not json",
     snd (previewText (printing "not json") ∅ noAuth previewConfig start))
  /\ JS.JSON_parse (JS.trim "not json") = None
  /\ fst (deployPreview (printing "not json") ∅ noAuth previewConfig start)
     = Throw SyntaxError.
Proof.
  assert (Htext :
    previewText (printing "not json") ∅ noAuth previewConfig start
    = (Return "not json",
       snd (previewText (printing "not json") ∅ noAuth previewConfig start)))
    by (vm_compute; reflexivity).
  assert (Hparse : JS.JSON_parse (JS.trim "not json") = None)
    by (vm_compute; reflexivity).
  split; [exact Htext|]. split; [exact Hparse|].
  destruct (unparsable_output_throws_SyntaxError (printing "not json") ∅
              noAuth previewConfig productionConfig start "not json"
              (snd (previewText (printing "not json") ∅ noAuth previewConfig
                      start)))
    as [Hpreview _].
  destruct (Hpreview Htext) as [Hthrow _].
  rewrite (Hthrow Hparse). reflexivity.
Defined.

Lemma error_status_is_returned_then_thrown_by_run_witness :
  fst (deployPreview (printing errorText) ∅ noAuth previewConfig start)
  = Return
      (JS.JObject
         [("status", JS.JString "error");
          ("error",
           JS.JString "HTTP Error: 403, The caller does not have permission")])
  /\ throwOnErrorStatus (fun literal => literal)
       (JS.JObject
          [("status", JS.JString "error");
           ("error",
            JS.JString "HTTP Error: 403, The caller does not have permission")])
     = Throw (Error "HTTP Error: 403, The caller does not have permission").
Proof.
  assert (Htext :
    previewText (printing errorText) ∅ noAuth previewConfig start
    = (Return errorText,
       snd (previewText (printing errorText) ∅ noAuth previewConfig start)))
    by (vm_compute; reflexivity).
  destruct (error_status_is_returned_then_thrown_by_run (printing errorText) ∅
              (fun literal => literal) noAuth previewConfig productionConfig
              start errorText
              (snd (previewText (printing errorText) ∅ noAuth previewConfig
                      start))
              [("status", JS.JString "error");
               ("error",
                JS.JString
                  "HTTP Error: 403, The caller does not have permission")]
              "HTTP Error: 403, The caller does not have permission"
              eq_refl eq_refl eq_refl) as (Hpreview & _ & Hcheck).
  split; [|exact Hcheck].
  rewrite (Hpreview Htext). reflexivity.
Defined.

(** C10 fails in its example: a result between a space and a newline parses
    as it is, so the production deploy returns what the preview deploy
    returns. *)
Lemma surrounding_space_and_newline_parse_untrimmed :
  fst (deployProductionSite (printing (" {} " +:+ newline)) ∅ noAuth
         productionConfig start)
  = Return (JS.JObject [])
  /\ fst (deployPreview (printing (" {} " +:+ newline)) ∅ noAuth previewConfig
            start)
     = Return (JS.JObject []).
Proof.
  split; vm_compute; reflexivity.
Qed.

Lemma preview_trims_production_does_not_witness :
  fst (deployPreview (printing (formFeed +:+ "{}")) ∅ noAuth previewConfig
         start)
  = parseJSON (JS.trim (formFeed +:+ "{}"))
  /\ fst (deployProductionSite (printing (formFeed +:+ "{}")) ∅ noAuth
            productionConfig start)
     = parseJSON (formFeed +:+ "{}")
  /\ parseJSON (JS.trim (formFeed +:+ "{}")) = Return (JS.JObject [])
  /\ parseJSON (formFeed +:+ "{}") = Throw SyntaxError.
Proof.
  destruct (preview_trims_production_does_not (printing (formFeed +:+ "{}")) ∅
              noAuth previewConfig productionConfig start (formFeed +:+ "{}")
              (snd (previewText (printing (formFeed +:+ "{}")) ∅ noAuth
                      previewConfig start))
              (snd (productionText (printing (formFeed +:+ "{}")) ∅ noAuth
                      productionConfig start))
              eq_refl eq_refl) as (Hpreview & Hproduction & _).
  split; [exact Hpreview|]. split; [exact Hproduction|].
  split; reflexivity.
Defined.

(** ** Interpreting a channel result *)

Section Enumeration.

Context {V : Type}.

Lemma insert_index_perm i (p : string * V) l :
  Permutation (JS.insert_index i p l) ((i, p) :: l).
Proof.
  induction l as [|[j q] l IH]; cbn.
  - reflexivity.
  - destruct (i <? j)%N.
    + reflexivity.
    + rewrite IH. apply perm_swap.
Qed.

Lemma indexed_fold_perm (o : JS.object V) acc :
  Permutation
    (map snd
       (fold_left
          (fun acc p =>
             match JS.array_index (fst p) with
             | Some i => JS.insert_index i p acc
             | None => acc
             end) o acc))
    (map snd acc ++ List.filter JS.is_index o).
Proof.
  revert acc. induction o as [|p o IH]; intros acc; cbn [fold_left List.filter].
  - rewrite app_nil_r. reflexivity.
  - rewrite IH. unfold JS.is_index at 2.
    destruct (JS.array_index (fst p)) as [i|].
    + rewrite (Permutation_map snd (insert_index_perm i p acc)). cbn [map snd].
      apply Permutation_middle.
    + reflexivity.
Qed.

Lemma filter_split_perm (f : string * V -> bool) (o : JS.object V) :
  Permutation (List.filter f o ++ List.filter (fun p => negb (f p)) o) o.
Proof.
  induction o as [|p o IH]; cbn [List.filter].
  - reflexivity.
  - destruct (f p); cbn [negb app].
    + apply perm_skip, IH.
    + rewrite <- Permutation_middle. apply perm_skip, IH.
Qed.

(** Enumeration lists every property once. *)
Lemma own_properties_perm (o : JS.object V) :
  Permutation (JS.own_properties o) o.
Proof.
  unfold JS.own_properties, JS.indexed_props.
  rewrite indexed_fold_perm. cbn [map app].
  apply filter_split_perm.
Qed.

Lemma Object_values_perm (o : JS.object V) :
  Permutation (JS.Object_values o) (map snd o).
Proof.
  unfold JS.Object_values. apply Permutation_map, own_properties_perm.
Qed.

(** With no array index among the keys, enumeration is creation order. *)
Lemma own_properties_named (o : JS.object V) :
  (forall k v, In (k, v) o -> JS.array_index k = None) ->
  JS.own_properties o = o.
Proof.
  intros Hnamed.
  assert (Hfold : forall acc,
    fold_left
      (fun acc (p : string * V) =>
         match JS.array_index (fst p) with
         | Some i => JS.insert_index i p acc
         | None => acc
         end) o acc = acc).
  { induction o as [|[k v] o IH]; intros acc; cbn [fold_left fst].
    - reflexivity.
    - rewrite (Hnamed k v (or_introl eq_refl)).
      apply IH. intros k' v' Hin. apply (Hnamed k' v'). right. exact Hin. }
  unfold JS.own_properties, JS.indexed_props. rewrite Hfold. cbn [map app].
  unfold JS.named_props.
  induction o as [|[k v] o IH]; cbn [List.filter].
  - reflexivity.
  - unfold JS.is_index at 1. cbn [fst].
    rewrite (Hnamed k v (or_introl eq_refl)). cbn [negb]. f_equal.
    apply IH.
    + intros k' v' Hin. apply (Hnamed k' v'). right. exact Hin.
    + intros acc. specialize (Hfold acc). cbn [fold_left fst] in Hfold.
      rewrite (Hnamed k v (or_introl eq_refl)) in Hfold. exact Hfold.
Qed.

End Enumeration.

Section Interpreter.

Context (Date_toUTCString : string -> string).

(** C5, as the code has it.  On a channel result with no site the
    interpreter throws, and what it throws is the TypeError of reading
    [expireTime] of the missing first element; it returns no
    interpretation. *)
Theorem empty_result_throws_TypeError (d : ChannelSuccessResult) :
  result d = [] ->
  interpretChannelDeployResult Date_toUTCString d = Throw TypeError
  /\ forall r, interpretChannelDeployResult Date_toUTCString d <> Return r.
Proof.
  intros Hempty. unfold interpretChannelDeployResult. rewrite Hempty.
  split; [reflexivity|]. intros r. discriminate.
Qed.

(** C6, as the code has it.  On a channel result with at least one site,
    with the sites taken in the enumeration order of the mapping (keys that
    are array indices first, ascending, then the other keys in insertion
    order; so insertion order when no key is an array index), the
    interpreter returns the [expireTime] of the first site, the rendering
    of that time by [Date], and the [url] of every site, one per entry of
    the mapping. *)
Theorem interprets_sites_in_enumeration_order (d : ChannelSuccessResult) :
  result d <> [] ->
  exists first others,
    JS.Object_values (result d) = first :: others
    /\ interpretChannelDeployResult Date_toUTCString d
       = Return
           {| Interpreted.expireTime := expireTime first;
              Interpreted.expire_time_formatted :=
                Date_toUTCString (expireTime first);
              Interpreted.urls := map url (first :: others) |}
    /\ length (map url (first :: others)) = length (result d)
    /\ Permutation (first :: others) (map snd (result d))
    /\ ((forall k s, In (k, s) (result d) -> JS.array_index k = None) ->
        first :: others = map snd (result d)).
Proof.
  intros Hsome.
  destruct (JS.Object_values (result d)) as [|first others] eqn:Hvalues.
  - exfalso. apply Hsome.
    pose proof (Object_values_perm (result d)) as Hperm.
    rewrite Hvalues in Hperm. apply Permutation_nil in Hperm.
    destruct (result d); [reflexivity|discriminate Hperm].
  - exists first, others. split; [reflexivity|].
    split.
    { unfold interpretChannelDeployResult. rewrite Hvalues. reflexivity. }
    split.
    { rewrite length_map, <- Hvalues.
      rewrite (Permutation_length (Object_values_perm (result d))).
      apply length_map. }
    split.
    { rewrite <- Hvalues. apply Object_values_perm. }
    intros Hnamed. rewrite <- Hvalues. unfold JS.Object_values.
    rewrite (own_properties_named _ Hnamed). reflexivity.
Qed.

End Interpreter.

(** C5 fails as stated: what the empty result raises is the TypeError of
    the property read on [undefined], which is passed on as it is. *)
Lemma empty_result_propagates_undefined_access :
  JS.Object_values (result noSites) !! 0%nat = None
  /\ interpretChannelDeployResult Timestamp.toUTCString noSites
     = Throw TypeError.
Proof.
  split; reflexivity.
Qed.

Lemma empty_result_throws_TypeError_witness :
  result noSites = []
  /\ interpretChannelDeployResult Timestamp.toUTCString noSites
     = Throw TypeError.
Proof.
  split; [reflexivity|].
  exact (proj1 (empty_result_throws_TypeError Timestamp.toUTCString noSites
                  eq_refl)).
Defined.

(** C6 fails as stated: with the sites inserted as [siteB] then [7], the
    interpreter reports the expiry of the second one inserted and lists its
    url first. *)
Lemma array_index_key_comes_first :
  map fst (result numberedSite) = ["siteB"; "7"]
  /\ interpretChannelDeployResult Timestamp.toUTCString numberedSite
     = Return
         {| Interpreted.expireTime := "2024-01-01T00:00:00.000Z";
            Interpreted.expire_time_formatted :=
              "Mon, 01 Jan 2024 00:00:00 GMT";
            Interpreted.urls := ["https://a"; "https://b"] |}
  /\ map expireTime (map snd (result numberedSite))
     = ["2024-01-02T00:00:00.000Z"; "2024-01-01T00:00:00.000Z"]
  /\ map url (map snd (result numberedSite)) = ["https://b"; "https://a"].
Proof.
  repeat split; vm_compute; reflexivity.
Qed.

Lemma interprets_sites_in_enumeration_order_witness :
  result twoSites <> []
  /\ interpretChannelDeployResult Timestamp.toUTCString twoSites
     = Return
         {| Interpreted.expireTime := "2024-01-01T00:00:00.000Z";
            Interpreted.expire_time_formatted :=
              "Mon, 01 Jan 2024 00:00:00 GMT";
            Interpreted.urls := ["https://a"; "https://b"] |}.
Proof.
  assert (Hsome : result twoSites <> []) by discriminate.
  split; [exact Hsome|].
  destruct (interprets_sites_in_enumeration_order Timestamp.toUTCString
              twoSites Hsome)
    as (first & others & Hvalues & Hresult & _).
  rewrite Hresult. vm_compute in Hvalues.
  injection Hvalues as <- <-. vm_compute. reflexivity.
Defined.

(** ** Reading the targets *)

Section DropWhite.

Context (w2 : ascii -> ascii -> bool) (w3 : ascii -> ascii -> ascii -> bool).

Lemma unmatched_kept l : unmatched w2 w3 l -> JS.drop_white w2 w3 l = l.
Proof.
  destruct l as [|b1 [|b2 [|b3 l]]]; cbn [unmatched JS.drop_white].
  - reflexivity.
  - intros [-> _]. reflexivity.
  - intros [-> [-> _]]. reflexivity.
  - intros [-> [-> ->]]. reflexivity.
Qed.

Lemma unmatched_prefix l x : unmatched w2 w3 (l ++ x) -> unmatched w2 w3 l.
Proof.
  destruct l as [|b1 [|b2 [|b3 l]]]; cbn [unmatched app]; tauto.
Qed.

(** What [drop_white] leaves is an end of the sequence that begins with no
    white character. *)
Lemma drop_white_spec l :
  unmatched w2 w3 (JS.drop_white w2 w3 l)
  /\ exists dropped, l = dropped ++ JS.drop_white w2 w3 l.
Proof.
  remember (length l) as n eqn:Hn. revert l Hn.
  induction n as [n IH] using lt_wf_ind. intros l Hn.
  destruct l as [|b1 l1]; [split; [exact I|exists []; reflexivity]|].
  cbn [JS.drop_white].
  destruct (JS.white1 b1) eqn:H1.
  { destruct (IH (length l1) ltac:(subst n; cbn; lia) l1 eq_refl)
      as [Hun [dropped Hd]].
    split; [exact Hun|]. exists (b1 :: dropped). cbn [app]. congruence. }
  destruct l1 as [|b2 l2].
  { split; [cbn; tauto|exists []; reflexivity]. }
  destruct (w2 b1 b2) eqn:H2.
  { destruct (IH (length l2) ltac:(subst n; cbn; lia) l2 eq_refl)
      as [Hun [dropped Hd]].
    split; [exact Hun|]. exists (b1 :: b2 :: dropped). cbn [app]. congruence. }
  destruct l2 as [|b3 l3].
  { split; [cbn; tauto|exists []; reflexivity]. }
  destruct (w3 b1 b2 b3) eqn:H3.
  { destruct (IH (length l3) ltac:(subst n; cbn; lia) l3 eq_refl)
      as [Hun [dropped Hd]].
    split; [exact Hun|]. exists (b1 :: b2 :: b3 :: dropped). cbn [app].
    congruence. }
  split; [cbn; tauto|exists []; reflexivity].
Qed.

End DropWhite.

(** What [trim] returns is a stretch of the text, and trimming it again
    changes nothing. *)
Lemma trim_bytes_stretch l :
  exists front back,
    l = front ++ JS.trimEnd_bytes (JS.trimStart_bytes l) ++ back.
Proof.
  unfold JS.trimEnd_bytes, JS.trimStart_bytes.
  destruct (drop_white_spec JS.white2 JS.white3 l) as [_ [front Hfront]].
  set (y := JS.drop_white JS.white2 JS.white3 l) in *.
  destruct (drop_white_spec (fun b2 b1 => JS.white2 b1 b2)
              (fun b3 b2 b1 => JS.white3 b1 b2 b3) (List.rev y))
    as [_ [back Hback]].
  exists front, (List.rev back). rewrite <- rev_app_distr, <- Hback.
  rewrite rev_involutive. exact Hfront.
Qed.

Lemma trim_bytes_idempotent l :
  JS.trimEnd_bytes (JS.trimStart_bytes (JS.trimEnd_bytes (JS.trimStart_bytes l)))
  = JS.trimEnd_bytes (JS.trimStart_bytes l).
Proof.
  unfold JS.trimEnd_bytes, JS.trimStart_bytes.
  destruct (drop_white_spec JS.white2 JS.white3 l) as [Hy _].
  set (y := JS.drop_white JS.white2 JS.white3 l) in *.
  destruct (drop_white_spec (fun b2 b1 => JS.white2 b1 b2)
              (fun b3 b2 b1 => JS.white3 b1 b2 b3) (List.rev y))
    as [Hz [back Hback]].
  set (z := JS.drop_white (fun b2 b1 => JS.white2 b1 b2)
              (fun b3 b2 b1 => JS.white3 b1 b2 b3) (List.rev y)) in *.
  assert (Hprefix : y = List.rev z ++ List.rev back).
  { rewrite <- rev_app_distr, <- Hback, rev_involutive. reflexivity. }
  rewrite Hprefix in Hy. apply unmatched_prefix in Hy.
  rewrite (unmatched_kept _ _ _ Hy), rev_involutive.
  rewrite (unmatched_kept _ _ _ Hz). reflexivity.
Qed.

Lemma bytes_text l : JS.bytes (JS.text l) = l.
Proof. apply list_ascii_of_string_of_list_ascii. Qed.

Lemma text_bytes s : JS.text (JS.bytes s) = s.
Proof. apply string_of_list_ascii_of_string. Qed.

Lemma trim_idempotent s : JS.trim (JS.trim s) = JS.trim s.
Proof.
  unfold JS.trim. rewrite bytes_text, trim_bytes_idempotent. reflexivity.
Qed.

Lemma trim_keeps_bytes s c : In c (JS.bytes (JS.trim s)) -> In c (JS.bytes s).
Proof.
  unfold JS.trim. rewrite bytes_text. intros Hin.
  destruct (trim_bytes_stretch (JS.bytes s)) as (front & back & Hs).
  rewrite Hs. apply in_or_app. right. apply in_or_app. left. exact Hin.
Qed.

Lemma bytes_append s1 s2 :
  JS.bytes (s1 +:+ s2) = JS.bytes s1 ++ JS.bytes s2.
Proof.
  unfold JS.bytes. induction s1 as [|c s1 IH]; simpl; [reflexivity|].
  rewrite <- IH. reflexivity.
Qed.

Lemma split_from_no_separator piece l :
  Forall (fun c => is_separator c = false) piece ->
  Forall (Forall (fun c => is_separator c = false)) (split_from piece l).
Proof.
  revert piece. induction l as [|c l IH]; intros piece Hpiece;
    cbn [split_from].
  - constructor; [|constructor]. apply Forall_rev. exact Hpiece.
  - destruct (is_separator c) eqn:Hsep.
    + constructor; [apply Forall_rev; exact Hpiece|].
      apply IH. constructor.
    + apply IH. constructor; assumption.
Qed.

Lemma split_from_piece piece a l :
  Forall (fun c => is_separator c = false) a ->
  split_from piece (a ++ l) = split_from (List.rev a ++ piece) l.
Proof.
  revert piece. induction a as [|c a IH]; intros piece Ha; [reflexivity|].
  inversion Ha as [|c' a' Hc Ha']; subst. cbn [app split_from].
  rewrite Hc, (IH _ Ha'). cbn [List.rev]. rewrite <- app_assoc. reflexivity.
Qed.

Lemma split_from_join piece t ts :
  Forall (fun t => Forall (fun c => is_separator c = false) (JS.bytes t))
         (t :: ts) ->
  split_from piece (JS.bytes (JS.join "," (t :: ts)))
  = (List.rev piece ++ JS.bytes t) :: map JS.bytes ts.
Proof.
  revert piece t. induction ts as [|t' ts IH]; intros piece t Hclean;
    inversion Hclean as [|x xs Ht Hts]; subst.
  - cbn [JS.join String.concat map].
    rewrite <- (app_nil_r (JS.bytes t)) at 1.
    rewrite (split_from_piece _ _ _ Ht). cbn [split_from].
    rewrite rev_app_distr, rev_involutive. reflexivity.
  - change (JS.join "," (t :: t' :: ts))
      with (t +:+ ("," +:+ JS.join "," (t' :: ts))).
    rewrite !bytes_append, (split_from_piece _ _ _ Ht).
    change (JS.bytes ",") with ["," % char]. cbn [app split_from].
    change (is_separator ","%char) with true. cbv iota.
    rewrite rev_app_distr, rev_involutive, (IH [] t' Hts). reflexivity.
Qed.

(** X9.  Every target read from the input is clean: it is not empty, it has
    no white space around it, and it holds neither a comma nor a newline. *)
Theorem parsed_targets_are_clean rawTargets ts :
  parseTargets rawTargets = Some ts -> Forall cleanTarget ts.
Proof.
  unfold parseTargets. destruct (JS.truthy rawTargets); [|discriminate].
  intros [= <-]. apply List.Forall_forall. intros t Hin.
  apply filter_In in Hin as [Hin Hlen].
  apply in_map_iff in Hin as (piece & <- & Hin).
  unfold splitTargets in Hin. apply in_map_iff in Hin as (l & <- & Hin).
  pose proof (split_from_no_separator [] (JS.bytes rawTargets) (List.Forall_nil _))
    as Hpieces.
  rewrite List.Forall_forall in Hpieces. specialize (Hpieces l Hin).
  split; [|split].
  - intros Hempty. rewrite Hempty in Hlen. discriminate Hlen.
  - apply trim_idempotent.
  - apply List.Forall_forall. intros c Hc. apply trim_keeps_bytes in Hc.
    rewrite bytes_text in Hc. rewrite List.Forall_forall in Hpieces.
    exact (Hpieces c Hc).
Qed.

(** X10.  Reading back the targets joined by commas, which is how the
    deploy functions pass them after [--only], gives the same targets: clean
    targets, at least one, survive [join] then [parseTargets]. *)
Theorem joined_targets_parse_back t ts :
  Forall cleanTarget (t :: ts) ->
  parseTargets (JS.join "," (t :: ts)) = Some (t :: ts).
Proof.
  intros Hclean.
  assert (Hsep :
    Forall (fun t => Forall (fun c => is_separator c = false) (JS.bytes t))
           (t :: ts)).
  { eapply List.Forall_impl; [|exact Hclean]. intros x (_ & _ & Hx). exact Hx. }
  assert (Htruthy : JS.truthy (JS.join "," (t :: ts)) = true).
  { inversion Hclean as [|x xs (Ht & _) _]; subst.
    destruct t as [|c t]; [contradiction|]. destruct ts; reflexivity. }
  unfold parseTargets, splitTargets. rewrite Htruthy.
  rewrite (split_from_join [] t ts Hsep). cbn [List.rev app].
  change (JS.bytes t :: map JS.bytes ts) with (map JS.bytes (t :: ts)).
  rewrite !map_map. f_equal.
  clear Hsep Htruthy. induction Hclean as [|x xs (Hx & Htrim & _) _ IH];
    [reflexivity|].
  cbn [map List.filter]. rewrite text_bytes, Htrim.
  destruct x as [|c x]; [contradiction|]. cbn [String.length Nat.ltb Nat.leb].
  f_equal. exact IH.
Qed.

(** ** More on the deploy executor: the runs it makes and what it logs *)

Section ExecutorWorld.

Context (tool : nat -> Invocation -> ProcessRun).
Context (process_env : gmap string string).

Lemma last_two {A} (l : list A) (a b d : A) : List.last (l ++ [a; b]) d = b.
Proof.
  change (l ++ [a; b]) with (l ++ [a] ++ [b]).
  rewrite app_assoc. apply last_last.
Qed.

Lemma execWithCredentials_debug_failure_world args projectId auth opts w message :
  debug_of opts = true ->
  exit_error (firstRun tool process_env args projectId auth opts w)
    = Some message ->
  execWithCredentials tool process_env args projectId auth opts w
  = (Throw (Error message),
     {| invocations :=
          invocations w ++ [firstInvocation process_env args projectId auth opts];
        console :=
          console w
          ++ [String.concat ""
                (stdout_chunks
                   (firstRun tool process_env args projectId auth opts w));
              message] |}).
Proof.
  intros Hdebug Hexit. rewrite execWithCredentials_eq. cbn zeta.
  rewrite Hexit, Hdebug. unfold console_log. cbn [invocations console].
  rewrite <- app_assoc. reflexivity.
Qed.

Lemma execWithCredentials_retry_world args projectId auth opts w message :
  debug_of opts = false ->
  exit_error (firstRun tool process_env args projectId auth opts w)
    = Some message ->
  execWithCredentials tool process_env args projectId auth opts w
  = (match
       exit_error (retryRun tool process_env args projectId auth opts w)
     with
     | Some message' => Throw (Error message')
     | None =>
         Return
           (lastChunk
              (stdout_chunks
                 (firstRun tool process_env args projectId auth opts w)))
     end,
     {| invocations :=
          invocations w
          ++ [firstInvocation process_env args projectId auth opts;
              retryInvocation process_env args projectId auth opts];
        console :=
          console w
          ++ [String.concat ""
                (stdout_chunks
                   (firstRun tool process_env args projectId auth opts w));
              message;
              "Retrying deploy with the --debug flag for better error output"]
          ++ match
               exit_error (retryRun tool process_env args projectId auth opts w)
             with
             | Some message' =>
                 [String.concat ""
                    (stdout_chunks
                       (retryRun tool process_env args projectId auth opts w));
                  message']
             | None => []
             end |}).
Proof.
  intros Hdebug Hexit. rewrite execWithCredentials_eq. cbn zeta.
  rewrite Hexit, Hdebug.
  rewrite execWithCredentials_eq. cbn zeta.
  rewrite debug_of_forced, firstRun_forced, firstInvocation_forced.
  rewrite !invocations_console_log. cbn [invocations].
  rewrite length_app. cbn [length]. rewrite Nat.add_1_r.
  fold (retryRun tool process_env args projectId auth opts w).
  unfold console_log. cbn [invocations console].
  destruct (exit_error (retryRun _ _ _ _ _ _ _)); cbn [invocations console];
    rewrite <- ?app_assoc; cbn [app]; reflexivity.
Qed.

(** The runs of a call, in full. *)
Lemma runs_of_a_call args projectId auth opts w :
  invocations
    (snd (execWithCredentials tool process_env args projectId auth opts w))
  = invocations w
    ++ firstInvocation process_env args projectId auth opts
       :: match
            exit_error (firstRun tool process_env args projectId auth opts w)
          with
          | Some _ =>
              if debug_of opts then []
              else [retryInvocation process_env args projectId auth opts]
          | None => []
          end.
Proof.
  destruct (exit_error (firstRun tool process_env args projectId auth opts w))
    as [message|] eqn:Hexit.
  - destruct (debug_of opts) eqn:Hdebug.
    + rewrite (execWithCredentials_debug_failure_world _ _ _ _ _ _ Hdebug Hexit).
      reflexivity.
    + rewrite (execWithCredentials_retry_world _ _ _ _ _ _ Hdebug Hexit).
      reflexivity.
  - rewrite (execWithCredentials_success _ _ _ _ _ _ _ Hexit). reflexivity.
Qed.

(** X1.  The runs a call makes: always the invocation composed from its
    arguments, followed by the same invocation under [--debug] exactly when
    the first run failed and the call did not debug; nothing else. *)
Theorem one_run_or_two args projectId auth opts w :
  invocations
    (snd (execWithCredentials tool process_env args projectId auth opts w))
  = invocations w
    ++ firstInvocation process_env args projectId auth opts
       :: match
            exit_error (firstRun tool process_env args projectId auth opts w)
          with
          | Some _ =>
              if debug_of opts then []
              else [retryInvocation process_env args projectId auth opts]
          | None => []
          end.
Proof.
  apply runs_of_a_call.
Qed.

(** What a call throws, and the line it logs last. *)
Lemma thrown_error_of_a_call args projectId auth opts w e :
  fst (execWithCredentials tool process_env args projectId auth opts w)
    = Throw e ->
  exists message,
    e = Error message
    /\ List.last
         (console
            (snd (execWithCredentials tool process_env args projectId auth
                    opts w))) "" = message
    /\ (if debug_of opts
        then exit_error (firstRun tool process_env args projectId auth opts w)
        else exit_error (retryRun tool process_env args projectId auth opts w))
       = Some message.
Proof.
  destruct (exit_error (firstRun tool process_env args projectId auth opts w))
    as [message|] eqn:Hexit.
  - destruct (debug_of opts) eqn:Hdebug.
    + rewrite (execWithCredentials_debug_failure_world _ _ _ _ _ _ Hdebug Hexit).
      cbn [fst snd console]. intros [= <-]. exists message.
      split; [reflexivity|]. split; [|reflexivity].
      apply last_two.
    + rewrite (execWithCredentials_retry_world _ _ _ _ _ _ Hdebug Hexit).
      cbn [fst snd console].
      destruct (exit_error (retryRun tool process_env args projectId auth opts w))
        as [message'|]; [|discriminate].
      intros [= <-]. exists message'.
      split; [reflexivity|]. split; [|reflexivity].
      rewrite app_assoc. apply last_two.
  - rewrite (execWithCredentials_success _ _ _ _ _ _ _ Hexit). discriminate.
Qed.

(** X2.  What a call throws is always the [Error] of the last run it made
    (the first under [debug], the retry otherwise), and its message is the
    last line the call wrote to the console. *)
Theorem thrown_error_is_logged_last args projectId auth opts w e :
  fst (execWithCredentials tool process_env args projectId auth opts w)
    = Throw e ->
  exists message,
    e = Error message
    /\ List.last
         (console
            (snd (execWithCredentials tool process_env args projectId auth
                    opts w))) "" = message
    /\ (if debug_of opts
        then exit_error (firstRun tool process_env args projectId auth opts w)
        else exit_error (retryRun tool process_env args projectId auth opts w))
       = Some message.
Proof.
  apply thrown_error_of_a_call.
Qed.

(** X3.  A call writes to the console exactly when its first run fails: the
    console is left as it was if and only if that run succeeded. *)
Theorem console_untouched_iff_first_run_succeeds args projectId auth opts w :
  console
    (snd (execWithCredentials tool process_env args projectId auth opts w))
  = console w
  <-> exit_error (firstRun tool process_env args projectId auth opts w) = None.
Proof.
  destruct (exit_error (firstRun tool process_env args projectId auth opts w))
    as [message|] eqn:Hexit.
  - split; [|discriminate]. intros Hsame. exfalso.
    assert (Hgrow : forall lines : list string,
              console w ++ lines = console w -> lines = []).
    { intros lines Hlines. apply (app_inv_head (console w)).
      rewrite app_nil_r. exact Hlines. }
    destruct (debug_of opts) eqn:Hdebug.
    + rewrite (execWithCredentials_debug_failure_world _ _ _ _ _ _ Hdebug Hexit)
        in Hsame.
      cbn [snd console] in Hsame. apply Hgrow in Hsame. discriminate Hsame.
    + rewrite (execWithCredentials_retry_world _ _ _ _ _ _ Hdebug Hexit)
        in Hsame.
      cbn [snd console] in Hsame. apply Hgrow in Hsame. discriminate Hsame.
  - split; [reflexivity|]. intros _.
    rewrite (execWithCredentials_success _ _ _ _ _ _ _ Hexit). reflexivity.
Qed.

(** Whatever holds of the invocation of a call with and without [--debug]
    holds of every run the call makes. *)
Lemma every_run_made (P : Invocation -> Prop) args projectId auth opts w made :
  (forall debug,
     P (invocationOf process_env args projectId auth debug
          (JS.or_else (Opts.firebaseToolsVersion opts) "latest"))) ->
  invocations
    (snd (execWithCredentials tool process_env args projectId auth opts w))
  = invocations w ++ made ->
  Forall P made.
Proof.
  intros HP Hmade. rewrite runs_of_a_call in Hmade.
  apply app_inv_head in Hmade. subst made.
  constructor; [apply HP|].
  destruct (exit_error _); [destruct (debug_of opts)|]; repeat constructor.
  apply HP.
Qed.

(** X4.  Every run of a call, the retry included, gets the variables of the
    process environment with two changes: [FIREBASE_DEPLOY_AGENT] is always
    the name of this action, and [GOOGLE_APPLICATION_CREDENTIALS] is the
    credentials file when a non-empty one is given. *)
Theorem environment_of_every_run args projectId auth opts w made :
  invocations
    (snd (execWithCredentials tool process_env args projectId auth opts w))
  = invocations w ++ made ->
  Forall
    (fun inv =>
       env inv !! "FIREBASE_DEPLOY_AGENT"
         = Some "oudyworks-action-firebase-deploy"
       /\ env inv !! "GOOGLE_APPLICATION_CREDENTIALS"
          = match gacFilename auth with
            | Some f =>
                if JS.truthy f then Some f
                else process_env !! "GOOGLE_APPLICATION_CREDENTIALS"
            | None => process_env !! "GOOGLE_APPLICATION_CREDENTIALS"
            end
       /\ forall name,
            name <> "FIREBASE_DEPLOY_AGENT" ->
            name <> "GOOGLE_APPLICATION_CREDENTIALS" ->
            env inv !! name = process_env !! name)
    made.
Proof.
  apply every_run_made. intros debug. cbn [invocationOf env].
  unfold composeEnv.
  destruct (gacFilename auth) as [f|]; [destruct (JS.truthy f)|];
    repeat split;
    try (intros name Hagent Hgac);
    rewrite ?lookup_insert_eq, ?lookup_insert_ne, ?lookup_insert_eq
      by congruence;
    try reflexivity.
  all: rewrite ?lookup_insert_ne by congruence;
       rewrite ?lookup_insert_eq; reflexivity.
Qed.

(** X5.  Every run of a call, the retry included, has the command line
    [npx firebase-tools@] followed by the version asked for, or by
    [latest] when none or an empty one is given. *)
Theorem command_line_of_every_run args projectId auth opts w made :
  invocations
    (snd (execWithCredentials tool process_env args projectId auth opts w))
  = invocations w ++ made ->
  Forall
    (fun inv =>
       commandLine inv
       = "npx firebase-tools@"
         +:+ match Opts.firebaseToolsVersion opts with
             | Some (String c v) => String c v
             | _ => "latest"
             end)
    made.
Proof.
  apply every_run_made. intros debug. cbn [invocationOf commandLine].
  destruct (Opts.firebaseToolsVersion opts) as [[|c v]|]; reflexivity.
Qed.

End ExecutorWorld.

(** ** More on the deploy functions and on the entry point *)

Section DeployMore.

Context (tool : nat -> Invocation -> ProcessRun).
Context (process_env : gmap string string).
Context (Number_toString : string -> string).

Lemma deployProductionSite_world auth p w :
  snd (deployProductionSite tool process_env auth p w)
  = snd (productionText tool process_env auth p w).
Proof.
  unfold deployProductionSite, bind, lift, ret.
  destruct (productionText tool process_env auth p w) as [[text|e] w'];
    [destruct (parseJSON text)|]; reflexivity.
Qed.

(** X6.  A deploy function fails in one of two ways only: with the [Error]
    of the tool, passed on from the executor without any parsing, or with
    the SyntaxError of a text the executor returned and [JSON.parse]
    refused.  In both cases the world is as the executor left it. *)
Theorem deploy_fails_with_process_or_syntax_error auth
    (c : ChannelDeployConfig) (p : ProductionDeployConfig) w e w' :
  (deployPreview tool process_env auth c w = (Throw e, w') ->
     (exists message,
        e = Error message
        /\ previewText tool process_env auth c w
           = (Throw (Error message), w'))
     \/ (e = SyntaxError
         /\ exists text,
              previewText tool process_env auth c w = (Return text, w')
              /\ JS.JSON_parse (JS.trim text) = None))
  /\ (deployProductionSite tool process_env auth p w = (Throw e, w') ->
        (exists message,
           e = Error message
           /\ productionText tool process_env auth p w
              = (Throw (Error message), w'))
        \/ (e = SyntaxError
            /\ exists text,
                 productionText tool process_env auth p w = (Return text, w')
                 /\ JS.JSON_parse text = None)).
Proof.
  split.
  - unfold deployPreview, bind, lift, ret.
    destruct (previewText tool process_env auth c w) as [[text|e0] w0]
      eqn:Htext.
    + unfold parseJSON.
      destruct (JS.JSON_parse (JS.trim text)) eqn:Hparse; [discriminate|].
      intros [= <- <-]. right. split; [reflexivity|].
      exists text. split; [reflexivity|exact Hparse].
    + intros [= <- <-]. left.
      destruct (thrown_error_of_a_call tool process_env (previewArgs c)
                  (projectId c) auth (deployOpts c) w e0)
        as (message & -> & _).
      { unfold previewText in Htext. rewrite Htext. reflexivity. }
      exists message. split; reflexivity.
  - unfold deployProductionSite, bind, lift, ret.
    destruct (productionText tool process_env auth p w) as [[text|e0] w0]
      eqn:Htext.
    + unfold parseJSON.
      destruct (JS.JSON_parse text) eqn:Hparse; [discriminate|].
      intros [= <- <-]. right. split; [reflexivity|].
      exists text. split; [reflexivity|exact Hparse].
    + intros [= <- <-]. left.
      destruct (thrown_error_of_a_call tool process_env (productionArgs p)
                  (projectId p) auth (deployOpts p) w e0)
        as (message & -> & _).
      { unfold productionText in Htext. rewrite Htext. reflexivity. }
      exists message. split; reflexivity.
Qed.

(** X7.  The first invocation of a production deploy has, before what the
    executor appends, the argument [deploy], then [--config] and the file
    iff a non-empty one is set, then [--only] and the targets joined by
    commas iff there is at least one; no channel and no expiry is passed. *)
Theorem production_arguments auth (p : ProductionDeployConfig) w :
  exists inv rest,
    invocations (snd (deployProductionSite tool process_env auth p w))
    = invocations w ++ inv :: rest
    /\ argv inv
       = (["deploy"]
          ++ (match config p with
              | Some f => if JS.truthy f then ["--config"; f] else []
              | None => []
              end)
          ++ (match targets p with
              | Some ts =>
                  match ts with
                  | [] => []
                  | _ :: _ => ["--only"; JS.join "," ts]
                  end
              | None => []
              end))
         ++ composeArgs [] (projectId p) auth false.
Proof.
  rewrite deployProductionSite_world. unfold productionText.
  rewrite runs_of_a_call. eexists; eexists. split; [reflexivity|].
  unfold firstInvocation, invocationOf, composeArgs, productionArgs.
  cbn [argv debug_of deployOpts Opts.debug app].
  destruct (targets p) as [[|t ts]|]; cbn [Nat.ltb Nat.leb length];
    rewrite <- ?app_assoc; reflexivity.
Qed.


End DeployMore.

Lemma append_assoc (a b c : string) : (a +:+ b) +:+ c = a +:+ (b +:+ c).
Proof.
  induction a as [|x a IH]; [reflexivity|].
  change (String x ((a +:+ b) +:+ c) = String x (a +:+ (b +:+ c))).
  rewrite IH. reflexivity.
Qed.

Lemma append_empty (a : string) : a +:+ "" = a.
Proof.
  induction a as [|x a IH]; [reflexivity|].
  change (String x (a +:+ "") = String x a). rewrite IH. reflexivity.
Qed.

(** The last line of the summary, written out. *)
Lemma primary_line projectId :
  "Primary URL: [" +:+ (projectId +:+ ".web.app") +:+ "]("
    +:+ ("https://" +:+ (projectId +:+ ".web.app") +:+ "/") +:+ ")"
  = "Primary URL: [" +:+ projectId +:+ ".web.app](https://" +:+ projectId
      +:+ ".web.app/)".
Proof.
  rewrite !append_assoc. reflexivity.
Qed.

(** X11.  When the deployment names no resource (its [result] is missing, a
    number, a boolean, [null], or an empty object, array or string, or the
    deployment is no object at all) the summary of a production deploy
    lists [hosting] as the only resource, between the heading and the
    primary URL of the project. *)
Theorem summary_falls_back_to_hosting projectId (deployment : JS.json) :
  (forall properties,
     deployment = JS.JObject properties ->
     emptyResult (JS.obj_get "result" properties)) ->
  summaryLines projectId deployment
  = ["Deployed resources:"; "hosting";
     "Primary URL: [" +:+ projectId +:+ ".web.app](https://" +:+ projectId
       +:+ ".web.app/)"].
Proof.
  intros Hempty.
  assert (Hnone : deployedResources deployment = []).
  { unfold deployedResources.
    destruct deployment as [|b|n|s|es|ps]; try reflexivity.
    specialize (Hempty ps eq_refl).
    destruct (JS.obj_get "result" ps) as [[|b|n|s|es|ps']|];
      try reflexivity.
    - destruct s; [reflexivity|contradiction].
    - destruct es; [reflexivity|contradiction].
    - destruct ps'; [reflexivity|contradiction]. }
  unfold summaryLines. rewrite Hnone. cbn [length Nat.ltb Nat.leb app].
  rewrite primary_line. reflexivity.
Qed.

(** X12.  When the [result] of the deployment is an object with at least one
    property, the summary of a production deploy has, between the heading
    and the primary URL, exactly one line per property, in the enumeration
    order of the keys, and each line begins with its key. *)
Theorem summary_has_one_line_per_resource projectId properties resources p ps :
  JS.obj_get "result" properties = Some (JS.JObject resources) ->
  resources = p :: ps ->
  exists lines,
    summaryLines projectId (JS.JObject properties)
    = ["Deployed resources:"] ++ lines
      ++ ["Primary URL: [" +:+ projectId +:+ ".web.app](https://" +:+ projectId
            +:+ ".web.app/)"]
    /\ length lines = length resources
    /\ Forall2 (fun key line => exists rest, line = key +:+ rest)
         (JS.Object_keys resources) lines
    /\ Permutation (JS.Object_keys resources) (map fst resources).
Proof.
  intros Hresult Hsome.
  set (lines :=
         map (fun key => describeResource key (JS.obj_get key resources))
             (JS.Object_keys resources)).
  assert (Hkeys : Permutation (JS.Object_keys resources) (map fst resources)).
  { unfold JS.Object_keys. apply Permutation_map, own_properties_perm. }
  assert (Hlength : length lines = length resources).
  { unfold lines. rewrite length_map, (Permutation_length Hkeys).
    apply length_map. }
  assert (Hresources : deployedResources (JS.JObject properties) = lines).
  { unfold deployedResources. rewrite Hresult. unfold resultEntries.
    rewrite map_map. reflexivity. }
  exists lines. split; [|split; [exact Hlength|split; [|exact Hkeys]]].
  - unfold summaryLines. rewrite Hresources.
    destruct lines as [|line lines'] eqn:Hlines.
    + subst resources. discriminate Hlength.
    + cbn [length Nat.ltb Nat.leb]. rewrite primary_line. reflexivity.
  - unfold lines. clear. induction (JS.Object_keys resources) as [|key keys IH];
      cbn [map]; constructor; [|exact IH].
    unfold describeResource.
    destruct (JS.obj_get key resources) as [[|b|n|s|es|ps]|];
      first [ exists ""; symmetry; apply append_empty
            | eexists; reflexivity ].
Qed.

Lemma thrown_error_is_logged_last_witness :
  fst (execWithCredentials failingTwice ∅ ["deploy"] "demo" noAuth noDebug start)
  = Throw (Error "The process failed with exit code 2")
  /\ List.last
       (console
          (snd (execWithCredentials failingTwice ∅ ["deploy"] "demo" noAuth
                  noDebug start))) ""
     = "The process failed with exit code 2".
Proof.
  assert (Hthrown :
    fst (execWithCredentials failingTwice ∅ ["deploy"] "demo" noAuth noDebug
           start)
    = Throw (Error "The process failed with exit code 2"))
    by (vm_compute; reflexivity).
  split; [exact Hthrown|].
  destruct (thrown_error_is_logged_last failingTwice ∅ ["deploy"] "demo" noAuth
              noDebug start _ Hthrown) as (message & Hmessage & Hlast & _).
  injection Hmessage as <-. exact Hlast.
Defined.

Lemma environment_of_every_run_witness :
  Forall
    (fun inv =>
       env inv !! "FIREBASE_DEPLOY_AGENT"
       = Some "oudyworks-action-firebase-deploy")
    [invocationOf (<["FIREBASE_DEPLOY_AGENT" := "someone-else"]> ∅) ["deploy"]
       "demo" noAuth false "latest";
     invocationOf (<["FIREBASE_DEPLOY_AGENT" := "someone-else"]> ∅) ["deploy"]
       "demo" noAuth true "latest"].
Proof.
  eapply List.Forall_impl;
    [|exact (environment_of_every_run failingTwice
               (<["FIREBASE_DEPLOY_AGENT" := "someone-else"]> ∅) ["deploy"]
               "demo" noAuth noDebug start _ eq_refl)].
  intros inv [Hagent _]. exact Hagent.
Defined.

Lemma command_line_of_every_run_witness :
  Forall (fun inv => commandLine inv = "npx firebase-tools@13.0.2")
    [invocationOf ∅ ["deploy"] "demo" noAuth false "13.0.2";
     invocationOf ∅ ["deploy"] "demo" noAuth true "13.0.2"].
Proof.
  exact (command_line_of_every_run failingTwice ∅ ["deploy"] "demo" noAuth
           {| Opts.debug := None; Opts.firebaseToolsVersion := Some "13.0.2" |}
           start _ eq_refl).
Defined.

Lemma deploy_fails_with_process_or_syntax_error_witness :
  deployPreview failingTwice ∅ noAuth previewConfig start
  = (Throw (Error "The process failed with exit code 2"),
     snd (deployPreview failingTwice ∅ noAuth previewConfig start))
  /\ previewText failingTwice ∅ noAuth previewConfig start
     = (Throw (Error "The process failed with exit code 2"),
        snd (deployPreview failingTwice ∅ noAuth previewConfig start)).
Proof.
  assert (Hthrown :
    deployPreview failingTwice ∅ noAuth previewConfig start
    = (Throw (Error "The process failed with exit code 2"),
       snd (deployPreview failingTwice ∅ noAuth previewConfig start)))
    by (vm_compute; reflexivity).
  split; [exact Hthrown|].
  destruct (proj1
              (deploy_fails_with_process_or_syntax_error failingTwice ∅ noAuth
                 previewConfig productionConfig start _ _) Hthrown)
    as [(message & Hmessage & Htext)|[Hsyntax _]].
  - injection Hmessage as <-. exact Htext.
  - discriminate Hsyntax.
Defined.

Lemma parsed_targets_are_clean_witness :
  parseTargets ("app, admin " +:+ newline +:+ "docs,") = Some ["app"; "admin"; "docs"]
  /\ Forall cleanTarget ["app"; "admin"; "docs"].
Proof.
  assert (Hparsed :
    parseTargets ("app, admin " +:+ newline +:+ "docs,")
    = Some ["app"; "admin"; "docs"]) by (vm_compute; reflexivity).
  split; [exact Hparsed|].
  exact (parsed_targets_are_clean _ _ Hparsed).
Defined.

Lemma joined_targets_parse_back_witness :
  Forall cleanTarget ["app"; "admin"]
  /\ parseTargets "app,admin" = Some ["app"; "admin"].
Proof.
  assert (Hclean : Forall cleanTarget ["app"; "admin"]).
  { repeat constructor; try discriminate; vm_compute; reflexivity. }
  split; [exact Hclean|].
  exact (joined_targets_parse_back "app" ["admin"] Hclean).
Defined.

Lemma summary_falls_back_to_hosting_witness :
  summaryLines "demo" (JS.JObject [("status", JS.JString "success")])
  = ["Deployed resources:"; "hosting";
     "Primary URL: [demo.web.app](https://demo.web.app/)"].
Proof.
  apply (summary_falls_back_to_hosting "demo"
           (JS.JObject [("status", JS.JString "success")])).
  intros properties [= <-]. exact I.
Defined.

Lemma summary_has_one_line_per_resource_witness :
  exists lines,
    summaryLines "demo"
      (JS.JObject
         [("status", JS.JString "success");
          ("result",
           JS.JObject
             [("hosting", JS.JArray [JS.JString "a"; JS.JString "b"]);
              ("functions", JS.JObject [])])])
    = ["Deployed resources:"] ++ lines
      ++ ["Primary URL: [demo.web.app](https://demo.web.app/)"]
    /\ length lines = 2%nat.
Proof.
  destruct (summary_has_one_line_per_resource "demo"
              [("status", JS.JString "success");
               ("result",
                JS.JObject
                  [("hosting", JS.JArray [JS.JString "a"; JS.JString "b"]);
                   ("functions", JS.JObject [])])]
              [("hosting", JS.JArray [JS.JString "a"; JS.JString "b"]);
               ("functions", JS.JObject [])]
              _ _ eq_refl eq_refl)
    as (lines & Hsummary & Hlength & _).
  exists lines. split; [exact Hsummary|exact Hlength].
Defined.
